(** * The blessing viewer (script.js): progress tracking, paging and selection

    A shallow embedding of the parts of [BlessingManager], [PageManager] and
    [AppInitializer] that decide which blessing is shown next, what is kept
    in [localStorage], and how start-up is retried.

    Conventions of the embedding.
    - The mutable singletons are one record, [world], threaded through every
      method; a method that returns a value returns it next to the new world.
    - [Math.floor(Math.random() * n)] is an integer of [0, n-1]; a method that
      draws takes a natural number [draw] and uses [draw mod n], which ranges
      over the same indices.
    - [Date.now()] is an argument [now], in integer milliseconds.
    - The page's elements are taken to exist; what the methods write to the
      page is not part of the state.
    - In [saveProgress], [clearProgress] and the methods built on them the
      calls of [localStorage] succeed.  [saveProgressIf] and [showBlessingIf]
      take the outcome of [setItem] as an argument. *)

From Stdlib Require Import ZArith.
From Stdlib Require Import Sorted.
From stdpp Require Import gmap strings list pretty.
From Equations Require Import Equations.
From Equations.Prop Require Import Logic.

Local Open Scope nat_scope.

(** ** Blessings and the keys of the displayed set *)

(** [{ text: blessing, category }], as [loadAllBlessings] builds it. *)
Record blessing := Blessing { text : string; category : string }.

#[global] Instance blessing_eq_dec : EqDecision blessing.
Proof. solve_decision. Defined.

(** An element of the [displayedBlessings] set.  [showBlessing] adds
    [blessing.text], a string; [showSpecificBlessing] adds [index], a number.
    A JavaScript [Set] compares with SameValueZero, under which a string and a
    number are never the same element. *)
Inductive key :=
| KText (s : string)
| KIndex (i : nat).

#[global] Instance key_eq_dec : EqDecision key.
Proof. solve_decision. Defined.

Definition key_to_sum (k : key) : string + nat :=
  match k with KText s => inl s | KIndex i => inr i end.

Definition key_of_sum (x : string + nat) : key :=
  match x with inl s => KText s | inr i => KIndex i end.

#[global] Instance key_countable : Countable key.
Proof. apply (inj_countable' key_to_sum key_of_sum). by intros []. Defined.

(** JavaScript truthiness of a string: only the empty string is falsy. *)
Definition truthy_string (s : string) : bool := negb (String.eqb s "").

(** ** What [localStorage] holds under [storageKey] *)

(** A JavaScript number as the age check sees it.  The numbers the program
    writes are integers ([Date.now()], counters); [NaN] is what a missing
    field becomes under arithmetic. *)
Inductive jsnum :=
| NaN
| Num (z : Z).

(** The value of the record's [timestamp] member after [JSON.parse], by the
    cases that [Date.now() - progress.timestamp] tells apart: the member is
    absent ([undefined]), [null], a boolean, an integer, or an object literal
    (one without members named valueOf or toString).  Strings are left out:
    their conversion is the numeric-literal grammar, which is not modelled. *)
Inductive tsvalue :=
| TsUndefined
| TsNull
| TsBool (b : bool)
| TsNumber (z : Z)
| TsObject.

(** The [ToNumber] conversion that the subtraction applies to its operand. *)
Definition ToNumber (v : tsvalue) : jsnum :=
  match v with
  | TsUndefined => NaN
  | TsNull => Num 0
  | TsBool b => Num (if b then 1 else 0)
  | TsNumber z => Num z
  | TsObject => NaN
  end.

(** The object stored by [saveProgress], read back member by member.  A
    member that is absent reads as [undefined], here [None]; a member that is
    present has the type [saveProgress] gives it: an array of texts and
    indices, a counter, a counter.  Records with a present member of another
    type are not represented, those on which [new Set] throws among them. *)
Record progress := Progress {
  pDisplayedBlessings : option (list key);
  pCurrentPage : option nat;
  pClickCount : option nat;
  pTimestamp : tsvalue
}.

(** The result of [JSON.parse] on the stored text.  The elements of an array
    are never read. *)
Inductive json :=
| JNull
| JBool (b : bool)
| JNumber (z : Z)
| JString (s : string)
| JArray
| JObject (p : progress).

(** The text found under the key: the empty text, a non-empty text that
    [JSON.parse] rejects with a SyntaxError, or a non-empty text that parses
    to a value.  [JSON.stringify] of the record of [saveProgress] is a text of
    the third kind that parses back to the same record. *)
Inductive item :=
| TextEmpty
| TextMalformed
| TextJson (v : json).

(** [!v] is false. *)
Definition truthy (v : json) : bool :=
  match v with
  | JNull => false
  | JBool b => b
  | JNumber z => negb (z =? 0)%Z
  | JString s => truthy_string s
  | JArray | JObject _ => true
  end.

(** [typeof v === 'object'].  An array is an object, and so is [null]. *)
Definition typeof_object (v : json) : bool :=
  match v with
  | JNull | JArray | JObject _ => true
  | JBool _ | JNumber _ | JString _ => false
  end.

(** A JavaScript object: an object literal or an array. *)
Definition isObject (v : json) : bool :=
  match v with
  | JArray | JObject _ => true
  | JNull | JBool _ | JNumber _ | JString _ => false
  end.

(** The members of a parsed value that passed the format check.  An array has
    none of the four members. *)
Definition members (v : json) : progress :=
  match v with
  | JObject p => p
  | _ => Progress None None None TsUndefined
  end.

(** ** The state *)

(** The fields of [BlessingManager], [PageManager.clickCount], and the entry
    of [localStorage] under [storageKey] ([None]: no entry, [getItem] returns
    [null]). *)
Record world := World {
  displayedBlessings : gset key;
  currentBlessing : option blessing;
  allBlessings : list blessing;
  loadedBlessings : list blessing;
  pageSize : nat;
  currentPage : nat;
  clickCount : nat;
  localStorage : option item
}.

Definition set_displayedBlessings (s : gset key) (w : world) : world :=
  World s (currentBlessing w) (allBlessings w) (loadedBlessings w)
        (pageSize w) (currentPage w) (clickCount w) (localStorage w).

Definition set_currentBlessing (c : option blessing) (w : world) : world :=
  World (displayedBlessings w) c (allBlessings w) (loadedBlessings w)
        (pageSize w) (currentPage w) (clickCount w) (localStorage w).

Definition set_allBlessings (l : list blessing) (w : world) : world :=
  World (displayedBlessings w) (currentBlessing w) l (loadedBlessings w)
        (pageSize w) (currentPage w) (clickCount w) (localStorage w).

Definition set_loadedBlessings (l : list blessing) (w : world) : world :=
  World (displayedBlessings w) (currentBlessing w) (allBlessings w) l
        (pageSize w) (currentPage w) (clickCount w) (localStorage w).

Definition set_currentPage (n : nat) (w : world) : world :=
  World (displayedBlessings w) (currentBlessing w) (allBlessings w)
        (loadedBlessings w) (pageSize w) n (clickCount w) (localStorage w).

Definition set_clickCount (n : nat) (w : world) : world :=
  World (displayedBlessings w) (currentBlessing w) (allBlessings w)
        (loadedBlessings w) (pageSize w) (currentPage w) n (localStorage w).

Definition set_localStorage (s : option item) (w : world) : world :=
  World (displayedBlessings w) (currentBlessing w) (allBlessings w)
        (loadedBlessings w) (pageSize w) (currentPage w) (clickCount w) s.

(** The object literals of the script, before any method has run, next to a
    given content of the store. *)
Definition page_load (stored : option item) : world :=
  World ∅ None [] [] 50 0 0 stored.

(** ** Paging *)

(** The loop [for (i = startIndex; i < endIndex; i++) loaded.push(all[i])],
    with [n] iterations left.  [endIndex] is at most [all.length], so [all[i]]
    is always an element; an index past the end would push nothing here. *)
Fixpoint pushRange (all : list blessing) (i n : nat) (loaded : list blessing)
  : list blessing :=
  match n with
  | 0 => loaded
  | S n' =>
      match all !! i with
      | Some b => pushRange all (S i) n' (loaded ++ [b])
      | None => loaded
      end
  end.

Definition loadNextPage (w : world) : world :=
  let startIndex := currentPage w * pageSize w in
  let endIndex := Nat.min (startIndex + pageSize w) (length (allBlessings w)) in
  let loaded :=
    pushRange (allBlessings w) startIndex (endIndex - startIndex)
              (loadedBlessings w) in
  set_currentPage (S (currentPage w)) (set_loadedBlessings loaded w).

(** [this.currentPage * this.pageSize < this.allBlessings.length] *)
Definition morePages (w : world) : bool :=
  bool_decide (currentPage w * pageSize w < length (allBlessings w)).

(** [this.loadedBlessings.filter(b => !this.displayedBlessings.has(b.text))] *)
Definition unDisplayed (w : world) : list blessing :=
  filter (λ b, KText (text b) ∉ displayedBlessings w) (loadedBlessings w).

(** [list[Math.floor(Math.random() * list.length)]] for a non-empty list. *)
Definition randomElement (draw : nat) (l : list blessing) : option blessing :=
  l !! (draw mod length l).

(** [getRandomUnDisplayedBlessing]: the blessing returned ([None] for
    [null]) and the world after the pages it loaded. *)
Equations? getRandomUnDisplayedBlessing (draw : nat) (w : world)
  : option blessing * world
  by wf (length (allBlessings w) - currentPage w * pageSize w) lt :=
getRandomUnDisplayedBlessing draw w with inspect
    (bool_decide (length (unDisplayed w) < 10) && morePages w) := {
  | exist _ true _ =>
      let w1 := loadNextPage w in
      if bool_decide (length (unDisplayed w1) = 0) then (None, w1)
      else (randomElement draw (unDisplayed w1), w1)
  | exist _ false Hfew with inspect
        (bool_decide (length (unDisplayed w) = 0)) := {
    | exist _ false _ => (randomElement draw (unDisplayed w), w)
    | exist _ true Hnone with inspect
          (bool_decide
             (length (allBlessings w) ≤ size (displayedBlessings w))) := {
      | exist _ true _ => (None, w)
      | exist _ false _ with inspect (morePages w) := {
        | exist _ true Hmore =>
            getRandomUnDisplayedBlessing draw (loadNextPage w)
        | exist _ false _ => (None, w) } } } }.
Proof.
  apply bool_decide_eq_true in Hnone.
  rewrite Hmore, andb_true_r in Hfew.
  apply bool_decide_eq_false in Hfew. lia.
Qed.

(** ** Persistence *)

Definition msPerDay : Z := 1000 * 60 * 60 * 24.

(** [daysPassed > 7] for
    [daysPassed = (Date.now() - progress.timestamp) / (1000*60*60*24)].
    A comparison with [NaN] is false.  For integers the quotient exceeds 7
    exactly when the difference exceeds seven days of milliseconds: the
    nearest such quotient is [7 + 1/86400000], far more than a rounding step
    away from 7. *)
Definition expired (now : Z) (timestamp : tsvalue) : bool :=
  match ToNumber timestamp with
  | NaN => false
  | Num t => (7 * msPerDay <? now - t)%Z
  end.

(** [localStorage.removeItem(this.storageKey)] *)
Definition clearProgress (w : world) : world := set_localStorage None w.

(** The record that [saveProgress] serialises.  [Array.from] lists the
    elements of the set. *)
Definition progressOf (now : Z) (w : world) : progress :=
  Progress (Some (elements (displayedBlessings w)))
           (Some (currentPage w))
           (Some (clickCount w))
           (TsNumber now).

Definition saveProgress (now : Z) (w : world) : world :=
  set_localStorage (Some (TextJson (JObject (progressOf now w)))) w.

(** The three assignments that restore the progress:
    [new Set(progress.displayedBlessings || [])], [progress.currentPage || 0],
    [progress.clickCount || 0]. *)
Definition restore (p : progress) (w : world) : world :=
  set_clickCount (default 0 (pClickCount p))
    (set_currentPage (default 0 (pCurrentPage p))
       (set_displayedBlessings
          (list_to_set (default [] (pDisplayedBlessings p))) w)).

(** A non-empty string is truthy. *)
Definition truthy_text (saved : item) : bool :=
  match saved with
  | TextEmpty => false
  | TextMalformed | TextJson _ => true
  end.

(** [JSON.parse(saved)]; [None] when it throws a SyntaxError. *)
Definition JSON_parse (saved : item) : option json :=
  match saved with
  | TextEmpty | TextMalformed => None
  | TextJson v => Some v
  end.

(** The body of the [try] of [loadProgress] once [saved] is truthy; [None]
    when it throws (the SyntaxError of [JSON.parse], or the format error),
    which happens before any assignment. *)
Definition loadProgress_try (now : Z) (saved : item) (w : world)
  : option world :=
  match JSON_parse saved with
  | None => None
  | Some v =>
      if negb (truthy v) || negb (typeof_object v) then None
      else if expired now (pTimestamp (members v)) then Some (clearProgress w)
      else Some (restore (members v) w)
  end.

(** [loadProgress]: nothing happens when [getItem] returns [null] or the
    empty text, both falsy; the [catch] clears the store. *)
Definition loadProgress (now : Z) (w : world) : world :=
  match localStorage w with
  | None => w
  | Some saved =>
      if truthy_text saved then
        match loadProgress_try now saved w with
        | Some w' => w'
        | None => clearProgress w
        end
      else w
  end.

(** ** Showing a blessing *)

(** The data check of [showBlessing]: it throws unless both members are
    truthy. *)
Definition complete (b : blessing) : bool :=
  truthy_string (text b) && truthy_string (category b).

(** [this.displayedBlessings.add(k)] *)
Definition markDisplayed (k : key) (w : world) : world :=
  set_displayedBlessings ({[k]} ∪ displayedBlessings w) w.

(** [PageManager.updateClickCount()] *)
Definition updateClickCount (w : world) : world :=
  set_clickCount (S (clickCount w)) w.

(** [showBlessing(specificBlessing = null)].  An object is truthy, so a given
    blessing is used as it is; otherwise one is drawn.  With no blessing the
    completion panel is shown and nothing else happens.  A blessing that fails
    the data check makes the [try] throw before the first assignment; the
    [catch] only writes to the page. *)
Definition showBlessing (specificBlessing : option blessing) (draw : nat)
  (now : Z) (w : world) : world :=
  let '(chosen, w1) :=
    match specificBlessing with
    | Some b => (Some b, w)
    | None => getRandomUnDisplayedBlessing draw w
    end in
  match chosen with
  | None => w1
  | Some b =>
      if complete b then
        saveProgress now
          (updateClickCount
             (markDisplayed (KText (text b))
                (set_currentBlessing (Some b) w1)))
      else w1
  end.

(** [this.loadedBlessings.some(b => b.text === blessing.text)] *)
Definition loadedHasText (t : string) (w : world) : bool :=
  existsb (λ b, String.eqb (text b) t) (loadedBlessings w).

(** [showSpecificBlessing(index)], called with the index of a search result.
    [showBlessing] never draws here.  Both saves read the clock; the second
    one overwrites the first, so one reading [now] stands for both. *)
Definition showSpecificBlessing (index : nat) (now : Z) (w : world) : world :=
  match allBlessings w !! index with
  | None => w
  | Some b =>
      let w1 :=
        if loadedHasText (text b) w then w
        else set_loadedBlessings (loadedBlessings w ++ [b]) w in
      let w2 := showBlessing (Some b) 0 now w1 in
      saveProgress now (markDisplayed (KIndex index) w2)
  end.

(** [reset()] *)
Definition reset (w : world) : world :=
  let w1 := set_currentBlessing None (set_displayedBlessings ∅ w) in
  let w2 := loadNextPage (set_currentPage 0 (set_loadedBlessings [] w1)) in
  set_clickCount 0 (clearProgress w2).

(** ** Start-up *)

(** [[a[i], a[j]] = [a[j], a[i]]] *)
Definition swap (i j : nat) (l : list blessing) : list blessing :=
  match l !! i, l !! j with
  | Some x, Some y => <[j:=x]> (<[i:=y]> l)
  | _, _ => l
  end.

(** The loop of [shuffleArray] from index [i] down to 1; [rand i] is the draw
    made at index [i]. *)
Fixpoint shuffleFrom (rand : nat → nat) (i : nat) (l : list blessing)
  : list blessing :=
  match i with
  | 0 => l
  | S i' => shuffleFrom rand i' (swap i (rand i mod (i + 1)) l)
  end.

Definition shuffleArray (rand : nat → nat) (l : list blessing)
  : list blessing :=
  shuffleFrom rand (length l - 1) l.

(** [BLESSING_DATABASE]: the categories in the order [for ... in] visits
    them, each with its list of texts. *)
Definition database := list (string * list string).

Definition flatten (db : database) : list blessing :=
  concat (map (λ c, map (λ t, Blessing t (fst c)) (snd c)) db).

Definition loadAllBlessings (db : database) (rand : nat → nat) (w : world)
  : world :=
  set_allBlessings (shuffleArray rand (flatten db)) w.

(** [BlessingManager.init()], up to the listeners it installs. *)
Definition init (db : database) (rand : nat → nat) (now : Z) (w : world)
  : world :=
  loadNextPage (loadProgress now (loadAllBlessings db rand w)).

(** ** The retry loop of [AppInitializer] *)

Module Retry.
Section Retry.

(** What the awaited operation returns or throws. *)
Context {A E : Type}.

(** [operation k]: how the [k]-th call of the operation ends, [inr a] when it
    resolves to [a], [inl e] when it throws or rejects with [e].
    [checkNetworkConnection k]: the answer of the probe made after the [k]-th
    call failed; the probe catches its own errors and answers [false]. *)
Variable operation : nat → E + A.
Variable checkNetworkConnection : nat → bool.

(** [new Error('网络连接不可用')] *)
Variable networkError : E.

Variables maxRetries delay : nat.

(** How the promise of [retryOperation] settles.  [Undefined]: the loop ended
    without a call, and the function returns nothing. *)
Inductive outcome :=
| Returned (a : A)
| Threw (e : E)
| Undefined.

(** An execution: how it settled, how often the operation was called, and
    the timeouts awaited, in order, in milliseconds. *)
Record run := Run { settled : outcome; calls : nat; waits : list nat }.

(** One failed attempt followed by a wait, before the rest of the loop. *)
Definition after (ms : nat) (r : run) : run :=
  Run (settled r) (S (calls r)) (ms :: waits r).

(** The loop [for (attempt = ...; attempt <= maxRetries; attempt++)] from the
    given value of [attempt]. *)
Equations? retryFrom (attempt : nat) : run
  by wf (S maxRetries - attempt) lt :=
retryFrom attempt with inspect (attempt <=? maxRetries) := {
  | exist _ false _ => Run Undefined 0 []
  | exist _ true Hle with operation attempt := {
    | inr a => Run (Returned a) 1 []
    | inl e with inspect (attempt =? maxRetries) := {
      | exist _ true _ => Run (Threw e) 1 []
      | exist _ false _ with checkNetworkConnection attempt := {
        | false => Run (Threw networkError) 1 []
        | true => after (delay * attempt) (retryFrom (S attempt)) } } } }.
Proof. apply Nat.leb_le in Hle. lia. Qed.

Definition retryOperation : run := retryFrom 1.

(** Attempts [first], ..., [last - 1] all fail with the network reachable. *)
Definition failing (first last : nat) : Prop :=
  ∀ j, first ≤ j < last →
    (∃ e, operation j = inl e) ∧ checkNetworkConnection j = true.

(** The timeouts awaited between attempt [first] and attempt [last]. *)
Definition backoff (first last : nat) : list nat :=
  map (λ j, delay * j) (seq first (last - first)).

End Retry.
End Retry.

(** ** Notions used in the statements *)

(** Page [n] of the corpus: [allBlessings.slice(n * pageSize, (n + 1) * pageSize)]. *)
Definition page (w : world) (n : nat) : list blessing :=
  take (pageSize w) (drop (n * pageSize w) (allBlessings w)).

(** What the user does in a session after start-up: a click on the display
    (with the draw it causes), or the choice of a search result. *)
Inductive action :=
| Click (draw : nat) (now : Z)
| Select (index : nat) (now : Z).

Definition act (a : action) (w : world) : world :=
  match a with
  | Click draw now => showBlessing None draw now w
  | Select index now => showSpecificBlessing index now w
  end.

Definition session (l : list action) (w : world) : world :=
  foldl (λ w a, act a w) w l.

(** Every element of the displayed set is the text of a corpus item. *)
Definition displayedWithinCorpus (w : world) : Prop :=
  ∀ k, k ∈ displayedBlessings w →
    ∃ b, b ∈ allBlessings w ∧ k = KText (text b).

(** Some corpus item's text has not been displayed. *)
Definition unDisplayedLeft (w : world) : Prop :=
  ∃ b, b ∈ allBlessings w ∧ (KText (text b) ∉ displayedBlessings w).

(** The state of paging on a first visit without search: the window is the
    prefix of the corpus up to the cursor, the texts of the corpus are
    distinct, and every element of the displayed set is the text of a window
    item. *)
Definition pagedWindow (w : world) : Prop :=
  0 < pageSize w
  ∧ loadedBlessings w = take (currentPage w * pageSize w) (allBlessings w)
  ∧ NoDup (text <$> allBlessings w)
  ∧ ∀ k, k ∈ displayedBlessings w →
      ∃ b, b ∈ loadedBlessings w ∧ k = KText (text b).

(** *** Databases and runs for the concrete cases *)

(** [n] distinct texts, [t0], [t1], ... *)
Definition texts (n : nat) : list string :=
  map (λ i : nat, "t" +:+ pretty i) (seq 0 n).

(** The draws under which [shuffleArray] swaps every element with itself. *)
Definition keepOrder : nat → nat := λ i, i.

(** The substitute database of [loadFallbackData], texts abbreviated. *)
Definition fallbackData : database :=
  [("festival", ["f1"; "f2"]); ("technical", ["g1"; "g2"]); ("cheer", ["h1"])].

(** One category of 101 blessings: three pages, the last of one item. *)
Definition threePages : database := [("c", texts 101)].

(** A first visit to the page with [threePages], then the first hundred
    search results chosen one after the other. *)
Definition afterHundredSelections : world :=
  session (map (λ i, Select i 2000) (seq 0 100))
          (init threePages keepOrder 1000 (page_load None)).

(** A first visit with the substitute database and one click, and the
    reload of the page that follows: [init] runs on fresh object literals
    with the store the first visit left. *)
Definition firstVisit : world :=
  act (Click 2 2000) (init fallbackData keepOrder 1000 (page_load None)).

(** The reload up to the call of [loadNextPage]: progress restored. *)
Definition restoredVisit : world :=
  loadProgress 3000
    (loadAllBlessings fallbackData keepOrder
       (page_load (localStorage firstVisit))).

Definition secondVisit : world :=
  init fallbackData keepOrder 3000 (page_load (localStorage firstVisit)).

(** Fifty-one blessings among which the last repeats the text of the first
    under another category. *)
Definition repeatedText : database := [("c", texts 50); ("d", ["t0"])].

(** Two blessings with the same text. *)
Definition twins : database := [("c", ["same"]); ("d", ["same"])].

(** ** Search *)

Module Search.
Section Search.

(** [String.prototype.toLowerCase], [String.prototype.trim] and the
    [length] of a string are the built-ins of the language; what is proved
    holds whatever they compute. *)
Variable toLowerCase : string → string.
Variable trim : string → string.
Variable jsLength : string → nat.

(** [s.includes(t)]: [t] occurs in [s].  A text and the same text in UTF-8
    have the same occurrences. *)
Fixpoint includes (s t : string) : bool :=
  String.prefix t s
  || match s with
     | EmptyString => false
     | String _ s' => includes s' t
     end.

(** [{ ...blessing, index: index, displayed: this.displayedBlessings.has(index) }] *)
Record result := Result {
  rText : string;
  rCategory : string;
  rIndex : nat;
  rDisplayed : bool
}.

(** The test of the callback of [forEach]: both members truthy, and the
    term in the lowered text or in the lowered category. *)
Definition hit (searchTerm : string) (b : blessing) : bool :=
  complete b
  && (includes (toLowerCase (text b)) searchTerm
      || includes (toLowerCase (category b)) searchTerm).

(** [this.allBlessings.forEach((blessing, index) => ...)] from [index] on,
    pushing onto [results]. *)
Fixpoint searchFrom (searchTerm : string) (displayed : gset key)
  (index : nat) (rest : list blessing) (results : list result)
  : list result :=
  match rest with
  | [] => results
  | b :: rest' =>
      searchFrom searchTerm displayed (S index) rest'
        (if hit searchTerm b
         then results
              ++ [Result (text b) (category b) index
                         (bool_decide (KIndex index ∈ displayed))]
         else results)
  end.

(** [searchBlessings(keyword)] *)
Definition searchBlessings (keyword : string) (w : world) : list result :=
  if negb (truthy_string keyword) || String.eqb (trim keyword) "" then []
  else if 100 <? jsLength keyword then []
  else searchFrom (trim (toLowerCase keyword)) (displayedBlessings w) 0
                  (allBlessings w) [].

End Search.
End Search.

(** ** Start-up by [AppInitializer] *)

(** The value of [BLESSING_DATABASE]. *)
Inductive dbvalue :=
| DbUndefined
| DbNull
| DbObject (db : database).

(** How the name [BLESSING_DATABASE] is bound.  [lexical]: by a [let] or
    [const] of another script, which a later assignment to the property
    [window.BLESSING_DATABASE] does not change; otherwise it is a property of
    the global object, or not bound at all ([DbUndefined] under [typeof]). *)
Record binding := Binding { lexical : bool; value : dbvalue }.

(** The categories [for ... in] visits: none for [undefined] and [null]. *)
Definition categories (v : dbvalue) : database :=
  match v with
  | DbObject db => db
  | DbUndefined | DbNull => []
  end.

(** The errors thrown during start-up, by their messages. *)
Inductive startError :=
| NotLoaded
| InvalidData
| NetworkUnavailable.

Inductive errorCode :=
| BLESSING_DATA_MISSING
| BLESSING_DATA_INVALID
| NETWORK_ERROR.

(** The chain of [error.message.includes(...)] in the [catch] of
    [AppInitializer.init]; the three messages do not contain one another. *)
Definition codeOf (e : startError) : errorCode :=
  match e with
  | NotLoaded => BLESSING_DATA_MISSING
  | InvalidData => BLESSING_DATA_INVALID
  | NetworkUnavailable => NETWORK_ERROR
  end.

(** The database of [loadFallbackData]. *)
Definition fallbackDatabase : database :=
  [("节日祝福", ["1024程序员节快乐！愿你的代码永远没有bug！";
                 "程序员节快乐，愿你的bug越来越少！"]);
   ("技术祝福", ["愿你的程序运行如丝般顺滑！";
                 "愿你的每一行代码都充满智慧！"]);
   ("励志祝福", ["祝你在编程的道路上越走越远！"])].

(** [window.BLESSING_DATABASE = {...}] as the name then reads. *)
Definition assignFallback (g : binding) : binding :=
  if lexical g then g else Binding false (DbObject fallbackDatabase).

(** The operation that is retried: the two checks of the database, then
    [BlessingManager.init()].  It fails the same way at every attempt. *)
Definition startOperation (g : binding) (rand : nat → nat) (now : Z)
  (w : world) (attempt : nat) : startError + world :=
  match value g with
  | DbUndefined => inl NotLoaded
  | DbNull => inl InvalidData
  | DbObject [] => inl InvalidData
  | DbObject db => inr (init db rand now w)
  end.

(** What start-up leaves to happen later. *)
Inductive followUp :=
| NothingMore
| InitAgain
| ConfirmReload.

(** The state after [AppInitializer.init] and the recovery it starts: the
    manager, the database binding, the error panel shown if any, the number
    of attempts and the waits of the retry loop, and what is scheduled. *)
Record started := Started {
  manager : world;
  global : binding;
  panel : option errorCode;
  attempts : nat;
  pauses : list nat;
  scheduled : followUp
}.

(** [attemptRecovery(errorCode)].  [online] is the answer of the probe it
    makes for a network error. *)
Definition attemptRecovery (code : errorCode) (online : bool)
  (g : binding) (rand : nat → nat) (now : Z) (w : world)
  : world * binding * followUp :=
  match code with
  | BLESSING_DATA_MISSING | BLESSING_DATA_INVALID =>
      let g' := assignFallback g in
      (init (categories (value g')) rand now w, g', NothingMore)
  | NETWORK_ERROR =>
      (w, g, if online then InitAgain else ConfirmReload)
  end.

(** [AppInitializer.init()]: [retryOperation(..., 3, 1000)], and in the
    [catch] the error panel and the recovery.  [probe k] is the answer of the
    network probe after the [k]-th failed attempt. *)
Definition startUp (g : binding) (probe : nat → bool) (online : bool)
  (rand : nat → nat) (now : Z) (w : world) : started :=
  let r :=
    Retry.retryOperation (startOperation g rand now w) probe
      NetworkUnavailable 3 1000 in
  match Retry.settled r with
  | Retry.Returned w' =>
      Started w' g None (Retry.calls r) (Retry.waits r) NothingMore
  | Retry.Undefined =>
      Started w g None (Retry.calls r) (Retry.waits r) NothingMore
  | Retry.Threw e =>
      let '(w', g', next) :=
        attemptRecovery (codeOf e) online g rand now w in
      Started w' g' (Some (codeOf e)) (Retry.calls r) (Retry.waits r) next
  end.

(** The error of the operation for a database that fails its checks. *)
Definition dataError (v : dbvalue) : option startError :=
  match v with
  | DbUndefined => Some NotLoaded
  | DbNull | DbObject [] => Some InvalidData
  | DbObject (_ :: _) => None
  end.

(** ** The test script *)

(** [runAllTests()] of test_functions.js, given how each test ends:
    [Some b] when it returns [b], [None] when it throws.  A test that throws
    is caught and the next one runs. *)
Definition countPassed (outcomes : list (option bool)) : nat :=
  foldl (λ passed o, if o is Some true then S passed else passed) 0 outcomes.

Definition runAllTests (outcomes : list (option bool)) : bool :=
  countPassed outcomes =? length outcomes.

(** ** The states of the viewer *)

(** The world after [showBlessing] has passed the data check for [b]: the
    current blessing, the displayed set, the click count and the store are
    written. *)
Definition shown (b : blessing) (now : Z) (w : world) : world :=
  saveProgress now
    (updateClickCount
       (markDisplayed (KText (text b)) (set_currentBlessing (Some b) w))).

(** [saveProgress] with the outcome of [localStorage.setItem] given.  When
    the call throws, as it does when the quota is exceeded, the [catch]
    reports SAVE_FAILED on the page and the store is left as it was. *)
Definition saveProgressIf (written : bool) (now : Z) (w : world) : world :=
  if written then saveProgress now w else w.

(** [showBlessing] with the outcome of the write of its [saveProgress].  The
    displayed set and the click count are written before the save is
    tried. *)
Definition showBlessingIf (written : bool) (specificBlessing : option blessing)
  (draw : nat) (now : Z) (w : world) : world :=
  let '(chosen, w1) :=
    match specificBlessing with
    | Some b => (Some b, w)
    | None => getRandomUnDisplayedBlessing draw w
    end in
  match chosen with
  | None => w1
  | Some b =>
      if complete b then
        saveProgressIf written now
          (updateClickCount
             (markDisplayed (KText (text b))
                (set_currentBlessing (Some b) w1)))
      else w1
  end.

(** The states the manager is in between two events, every write to the
    store having succeeded: after a first visit with an empty store, after a
    click or a chosen search result, after a reset, and after a reload of
    the page, which runs [init] on fresh object literals and the store as it
    is. *)
Inductive reachable : world → Prop :=
| reach_first db rand now :
    reachable (init db rand now (page_load None))
| reach_act a w :
    reachable w → reachable (act a w)
| reach_reset w :
    reachable w → reachable (reset w)
| reach_reload db rand now w :
    reachable w → reachable (init db rand now (page_load (localStorage w))).

(** The facts about the paging kept by every event: the window holds
    corpus items, the page size is 50, and a page has been loaded. *)
Definition paged (w : world) : Prop :=
  loadedBlessings w ⊆ allBlessings w ∧ pageSize w = 50 ∧ 1 ≤ currentPage w.

(** The store agrees with the memory: no record and nothing displayed or
    clicked, or a record of [saveProgress] with the displayed set and the
    click count of the memory, and a cursor of at least 1. *)
Definition inSync (w : world) : Prop :=
  match localStorage w with
  | None => displayedBlessings w = ∅ ∧ clickCount w = 0
  | Some (TextJson (JObject p)) =>
      pDisplayedBlessings p = Some (elements (displayedBlessings w))
      ∧ pClickCount p = Some (clickCount w)
      ∧ (∃ c, pCurrentPage p = Some c ∧ 1 ≤ c ≤ currentPage w)
      ∧ ∃ t, pTimestamp p = TsNumber t
  | Some _ => False
  end.

(** * Properties *)

(** ** Paging *)

Lemma pushRange_take all i n loaded :
  n ≤ length all - i →
  pushRange all i n loaded = loaded ++ take n (drop i all).
Proof.
  revert i loaded. induction n as [|n IH]; intros i loaded Hn; simpl.
  - by rewrite take_0, app_nil_r.
  - assert (Hi : i < length all) by lia.
    destruct (lookup_lt_is_Some_2 _ _ Hi) as [b Hb].
    rewrite Hb, IH by lia.
    rewrite <- app_assoc. f_equal. simpl.
    by rewrite (drop_S _ _ _ Hb).
Qed.

(** The loop of [loadNextPage] pushes the slice that is the current page. *)
Lemma loadNextPage_loaded w :
  loadedBlessings (loadNextPage w)
  = loadedBlessings w ++ page w (currentPage w).
Proof.
  unfold loadNextPage, page. simpl.
  rewrite pushRange_take by lia.
  f_equal.
  set (s := currentPage w * pageSize w).
  destruct (decide (s + pageSize w ≤ length (allBlessings w))) as [Hle|Hgt].
  - by replace (_ `min` _ - s) with (pageSize w) by lia.
  - rewrite !take_ge; [done | rewrite length_drop; lia..].
Qed.

Lemma page_prefix w n :
  take (n * pageSize w) (allBlessings w) ++ page w n
  = take (S n * pageSize w) (allBlessings w).
Proof.
  unfold page. rewrite take_take_drop. f_equal. lia.
Qed.

Lemma page_past_end w n :
  length (allBlessings w) ≤ n * pageSize w → page w n = [].
Proof. intros H. unfold page. by rewrite drop_ge, take_nil. Qed.

(** C7 (as amended).  [loadNextPage] appends the items of the current page,
    the next [pageSize] items of the corpus or as many as are left, in corpus
    order, and always advances the cursor by one; nothing else changes.  A
    window that is the prefix of the corpus up to the cursor stays one, of
    length [min (pageSize * pages) (corpus length)].  When the cursor already
    exhausts the corpus the window is unchanged and the cursor still
    advances. *)
Theorem loadNextPage_appends_page w :
  let w' := loadNextPage w in
  loadedBlessings w' = loadedBlessings w ++ page w (currentPage w)
  ∧ length (page w (currentPage w))
    = pageSize w `min` (length (allBlessings w) - currentPage w * pageSize w)
  ∧ currentPage w' = S (currentPage w)
  ∧ displayedBlessings w' = displayedBlessings w
  ∧ currentBlessing w' = currentBlessing w
  ∧ allBlessings w' = allBlessings w
  ∧ pageSize w' = pageSize w
  ∧ clickCount w' = clickCount w
  ∧ localStorage w' = localStorage w
  ∧ (loadedBlessings w = take (currentPage w * pageSize w) (allBlessings w) →
     loadedBlessings w' = take (currentPage w' * pageSize w') (allBlessings w')
     ∧ length (loadedBlessings w')
       = (pageSize w * currentPage w') `min` length (allBlessings w))
  ∧ (length (allBlessings w) ≤ currentPage w * pageSize w →
     loadedBlessings w' = loadedBlessings w
     ∧ currentPage w' = S (currentPage w)).
Proof.
  cbv zeta. rewrite loadNextPage_loaded.
  split; [done|]. split.
  { unfold page. rewrite length_take, length_drop. done. }
  do 7 (split; [done|]). split.
  - intros Hprefix. simpl. rewrite Hprefix, page_prefix.
    split; [done|]. rewrite length_take. lia.
  - intros Hend. by rewrite page_past_end, app_nil_r.
Qed.

Lemma loadNextPage_appends_page_witness :
  loadedBlessings
    (loadNextPage (loadAllBlessings threePages keepOrder (page_load None)))
  = take (1 * 50) (flatten threePages)
  ∧ loadedBlessings (loadNextPage secondVisit) = loadedBlessings secondVisit.
Proof.
  split.
  - apply (loadNextPage_appends_page
             (loadAllBlessings threePages keepOrder (page_load None))).
    reflexivity.
  - apply (loadNextPage_appends_page secondVisit). vm_compute. lia.
Defined.

(** C7 (as stated) fails.  On the reload of the page after a first visit,
    [init] calls [loadNextPage] with the restored cursor 1 and a corpus of
    five: the cursor already exhausts the corpus, and the call still moves
    it, to 2.  And the window of the first visit holds the five items of the
    corpus, not [pageSize * 1 = 50]. *)
Lemma loadNextPage_past_end_moves_cursor :
  length (allBlessings restoredVisit)
    ≤ currentPage restoredVisit * pageSize restoredVisit
  ∧ loadNextPage restoredVisit ≠ restoredVisit
  ∧ currentPage (loadNextPage restoredVisit) = 2
  ∧ length (loadedBlessings firstVisit)
    ≠ pageSize firstVisit * currentPage firstVisit.
Proof.
  split; [vm_compute; lia|]. split.
  { intros H. apply (f_equal currentPage) in H. vm_compute in H. lia. }
  split; [reflexivity|]. vm_compute. lia.
Qed.

(** ** Selection *)

Lemma randomElement_elem draw l b : randomElement draw l = Some b → b ∈ l.
Proof. unfold randomElement. apply list_elem_of_lookup_2. Qed.

Lemma randomElement_reach i l b : l !! i = Some b → randomElement i l = Some b.
Proof.
  intros H. unfold randomElement.
  by rewrite Nat.mod_small by eauto using lookup_lt_Some.
Qed.

(** The recursive call of [getRandomUnDisplayedBlessing] is never reached:
    the second [if] is entered with an empty candidate list only when no page
    is left, since otherwise the first [if] has been taken.  The method is
    this two-way choice. *)
Lemma getRandomUnDisplayedBlessing_two_way draw w :
  getRandomUnDisplayedBlessing draw w =
    if bool_decide (length (unDisplayed w) < 10) && morePages w
    then (randomElement draw (unDisplayed (loadNextPage w)), loadNextPage w)
    else (randomElement draw (unDisplayed w), w).
Proof.
  funelim (getRandomUnDisplayedBlessing draw w); try rewrite <- Heqcall;
    repeat match goal with
    | H : sigmaI _ _ _ = _ |- _ => clear H
    | H : bool_decide (length _ = 0) = true |- _ =>
        apply bool_decide_eq_true, nil_length_inv in H
    | H : morePages ?w = true, H' : _ && morePages ?w = false |- _ =>
        rewrite H, andb_true_r in H'; apply bool_decide_eq_false in H'
    | H : _ && morePages _ = _ |- _ => rewrite H
    end.
  - case_bool_decide as Hlen; [|done].
    apply nil_length_inv in Hlen. by rewrite Hlen.
  - done.
  - match goal with H : unDisplayed _ = [] |- _ => by rewrite H end.
  - match goal with H : unDisplayed _ = [] |- _ => rewrite H in * end.
    simpl in *. lia.
  - match goal with H : unDisplayed _ = [] |- _ => by rewrite H end.
Qed.

(** Apart from the pages it loads, the method changes nothing. *)
Lemma getRandomUnDisplayedBlessing_frame draw w :
  let w' := snd (getRandomUnDisplayedBlessing draw w) in
  displayedBlessings w' = displayedBlessings w
  ∧ allBlessings w' = allBlessings w
  ∧ pageSize w' = pageSize w
  ∧ currentBlessing w' = currentBlessing w
  ∧ clickCount w' = clickCount w
  ∧ localStorage w' = localStorage w.
Proof.
  rewrite getRandomUnDisplayedBlessing_two_way.
  by destruct (andb _ _).
Qed.

(** A blessing it returns is in the window and its text is not displayed. *)
Lemma getRandomUnDisplayedBlessing_fresh draw w b :
  fst (getRandomUnDisplayedBlessing draw w) = Some b →
  (KText (text b) ∉ displayedBlessings w)
  ∧ b ∈ loadedBlessings (snd (getRandomUnDisplayedBlessing draw w)).
Proof.
  rewrite getRandomUnDisplayedBlessing_two_way.
  destruct (andb _ _); simpl; intros H%randomElement_elem;
    apply list_elem_of_filter in H; by destruct H.
Qed.

(** With fewer than ten candidates and a page left, the answer is [null] as
    soon as that one page brings no candidate. *)
Lemma getRandomUnDisplayedBlessing_gives_up draw w :
  bool_decide (length (unDisplayed w) < 10) && morePages w = true →
  unDisplayed (loadNextPage w) = [] →
  getRandomUnDisplayedBlessing draw w = (None, loadNextPage w).
Proof.
  intros Hfew Hnone.
  by rewrite getRandomUnDisplayedBlessing_two_way, Hfew, Hnone.
Qed.

(** C1 fails on the code.  A corpus of 101 blessings, three pages; the user
    chooses the first hundred search results, which puts pages 0 and 1 in the
    window and in the displayed set while the cursor stays at 1.  The next
    draw loads page 1 once more, finds no candidate and answers [null],
    whatever the draw, although the blessing of page 2 was never displayed
    and page 2 is still to load. *)
Theorem getRandomUnDisplayedBlessing_null_with_pages_left :
  unDisplayedLeft afterHundredSelections
  ∧ morePages (loadNextPage afterHundredSelections) = true
  ∧ ∀ draw,
      getRandomUnDisplayedBlessing draw afterHundredSelections
      = (None, loadNextPage afterHundredSelections).
Proof.
  split; [|split].
  - exists (Blessing "t100" "c"). split.
    + apply list_elem_of_lookup. exists 100. reflexivity.
    + compute_done.
  - vm_compute. reflexivity.
  - intros draw. apply getRandomUnDisplayedBlessing_gives_up.
    + vm_compute. reflexivity.
    + vm_compute. reflexivity.
Qed.

(** The same on a reload.  After a first visit with one click the store
    holds cursor 1; [init] restores it before it loads a page, so the reload
    skips page 0, here the whole corpus: the window stays empty and the first
    draw answers [null] with four of five blessings never displayed. *)
Lemma getRandomUnDisplayedBlessing_null_after_reload :
  unDisplayedLeft secondVisit
  ∧ size (displayedBlessings secondVisit) = 1
  ∧ loadedBlessings secondVisit = []
  ∧ ∀ draw, getRandomUnDisplayedBlessing draw secondVisit = (None, secondVisit).
Proof.
  split; [|split; [|split]].
  - exists (Blessing "f1" "festival"). split.
    + apply list_elem_of_lookup. exists 0. reflexivity.
    + compute_done.
  - vm_compute. reflexivity.
  - vm_compute. reflexivity.
  - intros draw. rewrite getRandomUnDisplayedBlessing_two_way.
    replace (bool_decide _ && morePages secondVisit) with false
      by (vm_compute; reflexivity).
    reflexivity.
Qed.

(** *** Sessions of clicks alone *)

Lemma randomElement_None draw l : randomElement draw l = None → l = [].
Proof.
  unfold randomElement. intros H%lookup_ge_None.
  destruct l as [|b l]; [done|].
  pose proof (Nat.mod_upper_bound draw (length (b :: l))) as Hlt.
  simpl in *. lia.
Qed.

Lemma pagedWindow_loadNextPage w : pagedWindow w → pagedWindow (loadNextPage w).
Proof.
  intros (Hps & Hwin & Hnodup & Hdisp).
  split; [done|]. split; [|split; [done|]].
  - rewrite loadNextPage_loaded, Hwin. apply (page_prefix w).
  - intros k Hk. destruct (Hdisp k Hk) as (b & Hb & ->).
    exists b. split; [|done]. rewrite loadNextPage_loaded. set_solver.
Qed.

Lemma pagedWindow_new_page_fresh w x :
  pagedWindow w → x ∈ page w (currentPage w) →
  KText (text x) ∉ displayedBlessings w.
Proof.
  intros (Hps & Hwin & Hnodup & Hdisp) Hx Hin.
  destruct (Hdisp _ Hin) as (b & Hb & [= Heq]).
  rewrite Hwin in Hb.
  apply elem_of_take in Hb as (i & Hi & Hilt).
  unfold page in Hx. apply elem_of_take in Hx as (j & Hj & Hjlt).
  rewrite lookup_drop in Hj.
  assert (i = currentPage w * pageSize w + j); [|lia].
  eapply NoDup_lookup; [exact Hnodup|..]; rewrite list_lookup_fmap.
  - by rewrite Hi.
  - rewrite Hj. simpl. by rewrite Heq.
Qed.

Lemma pagedWindow_exhausted draw w :
  pagedWindow w →
  fst (getRandomUnDisplayedBlessing draw w) = None →
  ∀ b, b ∈ allBlessings w → KText (text b) ∈ displayedBlessings w.
Proof.
  intros Hpaged Hnone.
  rewrite getRandomUnDisplayedBlessing_two_way in Hnone.
  destruct (andb _ _) eqn:Hcond; simpl in Hnone;
    apply randomElement_None in Hnone.
  - exfalso. apply andb_true_iff in Hcond as [_ Hmore].
    apply bool_decide_eq_true in Hmore.
    destruct (lookup_lt_is_Some_2 _ _ Hmore) as [x Hx].
    assert (Hpage : x ∈ page w (currentPage w)).
    { unfold page. apply elem_of_take. exists 0.
      rewrite lookup_drop, Nat.add_0_r. destruct Hpaged as (Hps & _).
      by split. }
    assert (Hin : x ∈ unDisplayed (loadNextPage w));
      [|rewrite Hnone in Hin; by apply elem_of_nil in Hin].
    apply list_elem_of_filter. split.
    + by apply (pagedWindow_new_page_fresh w).
    + rewrite loadNextPage_loaded. set_solver.
  - destruct Hpaged as (Hps & Hwin & _ & _).
    apply andb_false_iff in Hcond as [Hlen|Hmore].
    { apply bool_decide_eq_false in Hlen. rewrite Hnone in Hlen.
      simpl in Hlen. lia. }
    apply bool_decide_eq_false in Hmore.
    rewrite take_ge in Hwin by lia.
    intros b Hb. rewrite <- Hwin in Hb.
    destruct (decide (KText (text b) ∈ displayedBlessings w)) as [|Hnot];
      [done|].
    assert (Hin : b ∈ unDisplayed w) by (by apply list_elem_of_filter).
    rewrite Hnone in Hin. by apply elem_of_nil in Hin.
Qed.

Lemma pagedWindow_click draw now w :
  pagedWindow w → pagedWindow (act (Click draw now) w).
Proof.
  intros Hpaged. simpl. unfold showBlessing.
  pose proof (getRandomUnDisplayedBlessing_fresh draw w) as Hfresh.
  rewrite getRandomUnDisplayedBlessing_two_way in *.
  assert (Hw1 : pagedWindow (if bool_decide (length (unDisplayed w) < 10)
                                && morePages w
                             then loadNextPage w else w)).
  { destruct (andb _ _); [by apply pagedWindow_loadNextPage|done]. }
  destruct (andb _ _); simpl in *;
    (destruct (randomElement draw _) as [b|] eqn:Hb; [|done]);
    destruct (Hfresh b eq_refl) as [_ Hin];
    (destruct (complete b); [|done]);
    destruct Hw1 as (Hps & Hwin & Hnodup & Hdisp);
    (split; [done|]); (split; [done|]); (split; [done|]);
    intros k; simpl; rewrite elem_of_union, elem_of_singleton;
    (intros [->|Hk]; [by exists b | by apply Hdisp]).
Qed.

Lemma pagedWindow_fresh_start db rand now :
  NoDup (text <$> shuffleArray rand (flatten db)) →
  pagedWindow (init db rand now (page_load None)).
Proof.
  intros Hnodup. apply pagedWindow_loadNextPage.
  split; [simpl; lia|]. split; [done|]. split; [done|].
  intros k Hk. simpl in Hk. set_solver.
Qed.

Lemma pagedWindow_clicks clicks w :
  pagedWindow w →
  pagedWindow (session (map (λ c, Click (fst c) (snd c)) clicks) w).
Proof.
  revert w. induction clicks as [|c clicks IH]; intros w Hpaged; [done|].
  apply IH, pagedWindow_click, Hpaged.
Qed.

(** Where C1 does hold: on a first visit, with distinct texts, and as long
    as the user only clicks, the window is the prefix of the corpus up to the
    cursor and every displayed text is in it; then [null] is answered only
    when every text of the corpus has been displayed. *)
Lemma clicks_only_null_means_all_displayed db rand now clicks draw :
  let w :=
    session (map (λ c, Click (fst c) (snd c)) clicks)
            (init db rand now (page_load None)) in
  NoDup (text <$> shuffleArray rand (flatten db)) →
  fst (getRandomUnDisplayedBlessing draw w) = None →
  ∀ b, b ∈ allBlessings w → KText (text b) ∈ displayedBlessings w.
Proof.
  intros w Hnodup. apply pagedWindow_exhausted.
  by apply pagedWindow_clicks, pagedWindow_fresh_start.
Qed.

(** ** Marking *)

Lemma complete_true b :
  complete b = true ↔ text b ≠ "" ∧ category b ≠ "".
Proof.
  unfold complete, truthy_string.
  rewrite andb_true_iff, !negb_true_iff, !String.eqb_neq. done.
Qed.

(** What [showBlessing] does with a blessing that passes the data check. *)
Lemma showBlessing_specific b draw now w :
  complete b = true →
  showBlessing (Some b) draw now w
  = saveProgress now
      (updateClickCount
         (markDisplayed (KText (text b)) (set_currentBlessing (Some b) w))).
Proof. intros H. unfold showBlessing. by rewrite H. Qed.

(** Nothing but [reset] and [loadProgress] takes an element out of the
    displayed set. *)
Lemma showBlessing_displayed_mono specific draw now w :
  displayedBlessings w ⊆ displayedBlessings (showBlessing specific draw now w).
Proof.
  unfold showBlessing.
  destruct specific as [b|].
  - destruct (complete b); simpl; set_solver.
  - pose proof (getRandomUnDisplayedBlessing_frame draw w) as Hframe.
    destruct (getRandomUnDisplayedBlessing draw w) as [[b|] w1];
      simpl in *; destruct Hframe as [Hd _]; [|by rewrite Hd].
    destruct (complete b); simpl; rewrite Hd; [apply union_subseteq_r|done].
Qed.

Lemma showSpecificBlessing_displayed_mono index now w :
  displayedBlessings w ⊆ displayedBlessings (showSpecificBlessing index now w).
Proof.
  unfold showSpecificBlessing.
  destruct (allBlessings w !! index) as [b|]; [|done].
  simpl. etrans; [|apply union_subseteq_r].
  etrans; [|apply showBlessing_displayed_mono].
  by destruct (loadedHasText _ _).
Qed.

Lemma session_displayed_mono acts w :
  displayedBlessings w ⊆ displayedBlessings (session acts w).
Proof.
  revert w. induction acts as [|a acts IH]; intros w; [done|].
  simpl. etrans; [|apply IH].
  destruct a; [apply showBlessing_displayed_mono
              |apply showSpecificBlessing_displayed_mono].
Qed.

(** A blessing whose text is displayed is never drawn again in the session,
    and neither is another blessing with that text. *)
Lemma displayed_text_not_drawn w a b acts draw :
  text a = text b →
  KText (text a) ∈ displayedBlessings w →
  fst (getRandomUnDisplayedBlessing draw (session acts w)) ≠ Some b.
Proof.
  intros Htext Hin Hdrawn.
  apply getRandomUnDisplayedBlessing_fresh in Hdrawn as [Hfresh _].
  apply Hfresh. rewrite <- Htext.
  by apply (session_displayed_mono acts w).
Qed.

(** C10.  Membership in the displayed set goes by text.  Showing a blessing
    puts its text in the set; from then on, whatever the user clicks or
    selects, no draw returns that blessing or any other blessing with the
    same text.  And a draw can answer [null] while the set has fewer elements
    than the corpus has items: two blessings with one text, one click. *)
Theorem equal_texts_displayed_together :
  (∀ a draw now w, complete a = true →
     KText (text a) ∈ displayedBlessings (showBlessing (Some a) draw now w))
  ∧ (∀ a draw now w, fst (getRandomUnDisplayedBlessing draw w) = Some a →
     complete a = true →
     KText (text a) ∈ displayedBlessings (showBlessing None draw now w))
  ∧ (∀ w a b acts draw, text a = text b →
     KText (text a) ∈ displayedBlessings w →
     fst (getRandomUnDisplayedBlessing draw (session acts w)) ≠ Some a
     ∧ fst (getRandomUnDisplayedBlessing draw (session acts w)) ≠ Some b)
  ∧ (∃ w a b, a ≠ b ∧ text a = text b
     ∧ allBlessings w = [a; b]
     ∧ KText (text a) ∈ displayedBlessings w
     ∧ size (displayedBlessings w) < length (allBlessings w)
     ∧ ∀ draw, fst (getRandomUnDisplayedBlessing draw w) = None).
Proof.
  split; [|split; [|split]].
  - intros a draw now w Hc. rewrite showBlessing_specific by done.
    simpl. set_solver.
  - intros a draw now w Hdrawn Hc. unfold showBlessing.
    destruct (getRandomUnDisplayedBlessing draw w) as [chosen w1].
    simpl in Hdrawn. subst chosen. rewrite Hc. simpl. set_solver.
  - intros w a b acts draw Htext Hin.
    split; eapply displayed_text_not_drawn; eauto.
  - exists (act (Click 0 2000) (init twins keepOrder 1000 (page_load None))),
      (Blessing "same" "c"), (Blessing "same" "d").
    split; [done|]. split; [done|]. split; [reflexivity|].
    split; [compute_done|]. split; [vm_compute; lia|].
    intros draw. rewrite getRandomUnDisplayedBlessing_two_way.
    replace (bool_decide _ && morePages _) with false
      by (vm_compute; reflexivity).
    reflexivity.
Qed.

Lemma equal_texts_displayed_together_witness :
  fst (getRandomUnDisplayedBlessing 1
         (session [Click 1 3000; Select 0 4000]
            (act (Click 0 2000)
               (init twins keepOrder 1000 (page_load None)))))
  ≠ Some (Blessing "same" "d").
Proof.
  refine (proj2 (proj1 (proj2 (proj2 equal_texts_displayed_together))
                   (act (Click 0 2000)
                      (init twins keepOrder 1000 (page_load None)))
                   (Blessing "same" "c") (Blessing "same" "d")
                   [Click 1 3000; Select 0 4000] 1 eq_refl _)).
  compute_done.
Defined.

(** ** The displayed set and the corpus *)

(** The path of a click keeps the displayed set within the texts of the
    corpus, as long as the window holds corpus items. *)
Lemma showBlessing_draw_within_corpus draw now w :
  loadedBlessings w ⊆ allBlessings w →
  displayedWithinCorpus w →
  displayedWithinCorpus (showBlessing None draw now w).
Proof.
  intros Hloaded Hinv. unfold showBlessing.
  pose proof (getRandomUnDisplayedBlessing_frame draw w) as Hframe.
  pose proof (getRandomUnDisplayedBlessing_fresh draw w) as Hfresh.
  rewrite getRandomUnDisplayedBlessing_two_way in *.
  assert (Hpage : loadedBlessings (loadNextPage w) ⊆ allBlessings w).
  { rewrite loadNextPage_loaded. intros x [Hx|Hx]%elem_of_app; [by apply Hloaded|].
    unfold page in Hx. by eapply subseteq_drop, subseteq_take. }
  destruct (andb _ _); simpl in *;
    (destruct (randomElement draw _) as [b|] eqn:Hb; [|done]);
    destruct (Hfresh b eq_refl) as [_ Hin];
    (destruct (complete b); [|done]);
    intros k; simpl; rewrite elem_of_union, elem_of_singleton;
    (intros [->|Hk]; [exists b; split; [auto|done] | by apply Hinv]).
Qed.

(** The path of a search result does not: the index it adds is no text. *)
Lemma showSpecificBlessing_leaves_corpus index now w b :
  allBlessings w !! index = Some b →
  ¬ displayedWithinCorpus (showSpecificBlessing index now w).
Proof.
  intros Hb Hinv. destruct (Hinv (KIndex index)) as (x & _ & Hx); [|done].
  unfold showSpecificBlessing. rewrite Hb. simpl. set_solver.
Qed.

(** C2 fails on the code.  A first visit with the substitute database, then
    the first search result is chosen: the displayed set, documented as a
    set of texts, holds the number 0 next to the text, two elements for one
    blessing shown. *)
Theorem showSpecificBlessing_adds_index :
  displayedWithinCorpus (init fallbackData keepOrder 1000 (page_load None))
  ∧ displayedBlessings
      (showSpecificBlessing 0 2000
         (init fallbackData keepOrder 1000 (page_load None)))
    = {[KText "f1"; KIndex 0]}
  ∧ ¬ displayedWithinCorpus
        (showSpecificBlessing 0 2000
           (init fallbackData keepOrder 1000 (page_load None))).
Proof.
  split; [|split].
  - intros k Hk. vm_compute in Hk. set_solver.
  - compute_done.
  - by apply (showSpecificBlessing_leaves_corpus 0 2000 _
                (Blessing "f1" "festival")).
Qed.

(** ** Choosing a search result *)

Lemma loadedHasText_false t w :
  loadedHasText t w = false ↔ ∀ x, x ∈ loadedBlessings w → text x ≠ t.
Proof.
  unfold loadedHasText. rewrite <- not_true_iff_false, existsb_exists.
  split.
  - intros Hno x Hx Heq. apply Hno. exists x.
    by rewrite <- list_elem_of_In, String.eqb_eq.
  - intros Hall (x & Hx & Heq). apply list_elem_of_In in Hx.
    apply String.eqb_eq in Heq. by apply (Hall x).
Qed.

Lemma loadedHasText_true t w :
  loadedHasText t w = true ↔ ∃ x, x ∈ loadedBlessings w ∧ text x = t.
Proof.
  unfold loadedHasText. rewrite existsb_exists. split.
  - intros (x & Hx & Heq). exists x.
    by rewrite list_elem_of_In, <- String.eqb_eq.
  - intros (x & Hx & Heq). exists x.
    by rewrite <- list_elem_of_In, String.eqb_eq.
Qed.

(** C3 (as amended).  For a corpus position that holds a blessing,
    [showSpecificBlessing] leaves the cursor and the pages of the corpus as
    they were, so the calls of [loadNextPage] that follow append the pages
    they would have appended.  The blessing is appended to the window when
    no item of the window has its text; when one has, the window stays as it
    was; either way the window then holds an item with that text.  And when
    the blessing has a non-empty text and a non-empty category, it becomes
    the current blessing and its text is put in the displayed set, so that
    no later draw of the session returns it. *)
Theorem showSpecificBlessing_appends_and_marks index now w b :
  allBlessings w !! index = Some b →
  let w' := showSpecificBlessing index now w in
  currentPage w' = currentPage w
  ∧ (∀ n, page w' n = page w n)
  ∧ loadedBlessings (loadNextPage w')
    = loadedBlessings w' ++ page w (currentPage w)
  ∧ ((∀ x, x ∈ loadedBlessings w → text x ≠ text b) →
     loadedBlessings w' = loadedBlessings w ++ [b])
  ∧ ((∃ x, x ∈ loadedBlessings w ∧ text x = text b) →
     loadedBlessings w' = loadedBlessings w)
  ∧ (∃ x, x ∈ loadedBlessings w' ∧ text x = text b)
  ∧ (text b ≠ "" → category b ≠ "" →
     currentBlessing w' = Some b
     ∧ KText (text b) ∈ displayedBlessings w'
     ∧ ∀ acts draw,
         fst (getRandomUnDisplayedBlessing draw (session acts w')) ≠ Some b).
Proof.
  intros Hb w'.
  set (w1 := if loadedHasText (text b) w then w
             else set_loadedBlessings (loadedBlessings w ++ [b]) w).
  assert (Hw' : w' = saveProgress now
                  (markDisplayed (KIndex index)
                     (showBlessing (Some b) 0 now w1))).
  { unfold w', showSpecificBlessing. by rewrite Hb. }
  assert (Hshow : currentPage (showBlessing (Some b) 0 now w1) = currentPage w
            ∧ allBlessings (showBlessing (Some b) 0 now w1) = allBlessings w
            ∧ pageSize (showBlessing (Some b) 0 now w1) = pageSize w
            ∧ loadedBlessings (showBlessing (Some b) 0 now w1)
              = loadedBlessings w1).
  { unfold showBlessing, w1.
    by destruct (complete b), (loadedHasText (text b) w). }
  destruct Hshow as (Hcp & Hall & Hps & Hloaded).
  assert (Hpage : ∀ n, page w' n = page w n).
  { intros n. rewrite Hw'. unfold page. simpl. by rewrite Hall, Hps. }
  assert (Hwin : loadedBlessings w' = loadedBlessings w1).
  { by rewrite Hw'. }
  split; [by rewrite Hw'|]. split; [done|].
  split.
  { rewrite loadNextPage_loaded, Hpage. by rewrite Hw'; simpl; rewrite Hcp. }
  split.
  { intros Hnew%loadedHasText_false. rewrite Hwin. unfold w1.
    by rewrite Hnew. }
  split.
  { intros Hold%loadedHasText_true. rewrite Hwin. unfold w1.
    by rewrite Hold. }
  split.
  { rewrite Hwin. unfold w1.
    destruct (loadedHasText (text b) w) eqn:Hhas.
    - by apply loadedHasText_true.
    - exists b. split; [|done]. simpl. apply elem_of_app. right.
      by apply list_elem_of_singleton. }
  intros Htext Hcategory.
  assert (Hc : complete b = true) by (by apply complete_true).
  assert (Hin : KText (text b) ∈ displayedBlessings w').
  { rewrite Hw', showBlessing_specific by done. simpl. set_solver. }
  split; [by rewrite Hw', showBlessing_specific|]. split; [done|].
  intros acts draw. by eapply displayed_text_not_drawn.
Qed.

(** The blessing of the third page, chosen on a first visit. *)
Lemma showSpecificBlessing_appends_and_marks_witness :
  loadedBlessings
    (showSpecificBlessing 100 2000
       (init threePages keepOrder 1000 (page_load None)))
  = loadedBlessings (init threePages keepOrder 1000 (page_load None))
    ++ [Blessing "t100" "c"]
  ∧ KText "t100"
    ∈ displayedBlessings
        (showSpecificBlessing 100 2000
           (init threePages keepOrder 1000 (page_load None))).
Proof.
  assert (Hb : allBlessings (init threePages keepOrder 1000 (page_load None))
               !! 100 = Some (Blessing "t100" "c"))
    by (vm_compute; reflexivity).
  pose proof (showSpecificBlessing_appends_and_marks 100 2000
                (init threePages keepOrder 1000 (page_load None))
                (Blessing "t100" "c") Hb) as H.
  cbv zeta in H.
  split.
  - refine (proj1 (proj2 (proj2 (proj2 H))) _).
    apply loadedHasText_false. vm_compute. reflexivity.
  - refine (proj1 (proj2
              (proj2 (proj2 (proj2 (proj2 (proj2 (proj2 H))))) _ _))).
    + discriminate.
    + discriminate.
Defined.

(** C3 (as stated) fails.  The window is searched by text: the blessing at
    position 50 is not in the window, another blessing with its text is, and
    the blessing is not appended: the window stays as it was. *)
Lemma showSpecificBlessing_repeated_text_not_appended :
  allBlessings (init repeatedText keepOrder 1000 (page_load None)) !! 50
  = Some (Blessing "t0" "d")
  ∧ (Blessing "t0" "d"
     ∉ loadedBlessings (init repeatedText keepOrder 1000 (page_load None)))
  ∧ loadedBlessings
      (showSpecificBlessing 50 2000
         (init repeatedText keepOrder 1000 (page_load None)))
    = loadedBlessings (init repeatedText keepOrder 1000 (page_load None))
  ∧ (Blessing "t0" "d"
     ∉ loadedBlessings
         (showSpecificBlessing 50 2000
            (init repeatedText keepOrder 1000 (page_load None)))).
Proof. split; [|split; [|split]]; compute_done. Qed.

(** ** Starting over *)

Lemma unDisplayed_nothing_displayed w :
  displayedBlessings w = ∅ → unDisplayed w = loadedBlessings w.
Proof.
  intros Hempty. unfold unDisplayed. rewrite Hempty.
  induction (loadedBlessings w) as [|b l IH]; [done|].
  rewrite filter_cons_True by set_solver. by rewrite IH.
Qed.

Lemma reset_loaded w :
  loadedBlessings (reset w) = take (pageSize w) (allBlessings w).
Proof.
  change (loadedBlessings (reset w)) with
    (loadedBlessings
       (loadNextPage
          (set_currentPage 0
             (set_loadedBlessings []
                (set_currentBlessing None (set_displayedBlessings ∅ w)))))).
  rewrite loadNextPage_loaded. unfold page. simpl. by rewrite drop_0.
Qed.

(** After [reset] the draw is made in the window as it is, the first page,
    when a page has ten items or more. *)
Lemma reset_draws_in_first_page draw w :
  10 ≤ pageSize w →
  getRandomUnDisplayedBlessing draw (reset w)
  = (randomElement draw (take (pageSize w) (allBlessings w)), reset w).
Proof.
  intros Hps. rewrite getRandomUnDisplayedBlessing_two_way.
  assert (Hun : unDisplayed (reset w) = take (pageSize w) (allBlessings w)).
  { rewrite unDisplayed_nothing_displayed by done. apply reset_loaded. }
  rewrite Hun.
  replace (bool_decide (length (take (pageSize w) (allBlessings w)) < 10)
           && morePages (reset w)) with false; [done|].
  symmetry. apply andb_false_iff.
  destruct (decide (pageSize w < length (allBlessings w))) as [Hlt|Hge].
  - left. apply bool_decide_eq_false. rewrite length_take. lia.
  - right. apply bool_decide_eq_false.
    change (currentPage (reset w)) with 1.
    change (pageSize (reset w)) with (pageSize w).
    change (allBlessings (reset w)) with (allBlessings w). lia.
Qed.

(** C6 (as amended).  [reset] empties the displayed set, drops the current
    blessing, replaces the window by the first page, leaving the cursor at 1,
    clears the store and the click count, and leaves the corpus in the order
    it had.  After it, one draw can return any blessing of the first page:
    for each of the first [pageSize] corpus positions there is a draw that
    returns the blessing at that position.  And when a page has ten items or
    more, as it has with the page size of 50, the draw returns nothing else:
    what it returns is at one of the first [pageSize] positions, so that a
    blessing of a later page is returned only if it is also on the first. *)
Theorem reset_restarts_from_first_page w :
  let w' := reset w in
  displayedBlessings w' = ∅
  ∧ currentBlessing w' = None
  ∧ loadedBlessings w' = take (pageSize w) (allBlessings w)
  ∧ currentPage w' = 1
  ∧ allBlessings w' = allBlessings w
  ∧ pageSize w' = pageSize w
  ∧ clickCount w' = 0
  ∧ localStorage w' = None
  ∧ (∀ i b, i < pageSize w → allBlessings w !! i = Some b →
       ∃ draw, fst (getRandomUnDisplayedBlessing draw w') = Some b)
  ∧ (10 ≤ pageSize w →
     ∀ draw b, fst (getRandomUnDisplayedBlessing draw w') = Some b →
       ∃ i, i < pageSize w ∧ allBlessings w !! i = Some b).
Proof.
  intros w'. do 2 (split; [done|]). split; [apply reset_loaded|].
  do 5 (split; [done|]). split.
  - intros i b Hi Hb. exists i.
    assert (Hwin : loadedBlessings w' !! i = Some b).
    { unfold w'. by rewrite reset_loaded, lookup_take_lt. }
    rewrite getRandomUnDisplayedBlessing_two_way.
    destruct (andb _ _); simpl; apply randomElement_reach;
      rewrite unDisplayed_nothing_displayed by done; [|done].
    rewrite loadNextPage_loaded. apply lookup_app_l_Some, Hwin.
  - intros Hps draw b. unfold w'. rewrite reset_draws_in_first_page by done.
    simpl. intros Hin%randomElement_elem.
    apply list_elem_of_lookup in Hin as [i Hi].
    apply lookup_take_Some in Hi as [Hi Hlt]. by exists i.
Qed.

Lemma reset_restarts_from_first_page_witness :
  ∃ draw,
    fst (getRandomUnDisplayedBlessing draw (reset afterHundredSelections))
    = Some (Blessing "t49" "c").
Proof.
  refine (proj1 (proj2 (proj2 (proj2 (proj2 (proj2 (proj2 (proj2 (proj2
            (reset_restarts_from_first_page afterHundredSelections)))))))))
            49 (Blessing "t49" "c") _ _).
  - vm_compute. lia.
  - vm_compute. reflexivity.
Defined.

(** C6 (as stated) fails.  With a corpus of three pages, the blessing of the
    third page is in the corpus, and no draw made right after [reset] returns
    it: the candidates are the fifty blessings of the first page. *)
Lemma reset_then_draw_misses_later_pages :
  Blessing "t100" "c" ∈ allBlessings (reset afterHundredSelections)
  ∧ ¬ ∃ draw,
        fst (getRandomUnDisplayedBlessing draw (reset afterHundredSelections))
        = Some (Blessing "t100" "c").
Proof.
  split; [compute_done|].
  intros [draw Hdraw]. revert Hdraw.
  rewrite getRandomUnDisplayedBlessing_two_way.
  replace (bool_decide _ && morePages _) with false
    by (vm_compute; reflexivity).
  simpl. intros Hin%randomElement_elem. revert Hin. compute_done.
Qed.

(** ** Persistence *)

Lemma expired_number now t :
  expired now (TsNumber t) = true ↔ (7 * msPerDay < now - t)%Z.
Proof. unfold expired. simpl. apply Z.ltb_lt. Qed.


Lemma loadProgress_object now w p :
  localStorage w = Some (TextJson (JObject p)) →
  loadProgress now w
  = if expired now (pTimestamp p) then clearProgress w else restore p w.
Proof.
  intros Hs. unfold loadProgress, loadProgress_try. rewrite Hs. simpl.
  by destruct (expired now (pTimestamp p)).
Qed.

(** C4 (as amended).  A stored record whose timestamp is more than seven
    days old (eight, for one) leaves the state in memory as it was, the empty
    defaults at start-up, and the store is cleared; so do a non-empty text
    that is no JSON, and a payload that is no JavaScript object ([null], a
    boolean, a number, a string).  An empty stored text is skipped and stays
    in the store; an array passes for an object without members: the defaults
    are assigned and the store is kept. *)
Theorem loadProgress_discards now w :
  (∀ p t, localStorage w = Some (TextJson (JObject p)) →
     pTimestamp p = TsNumber t → (7 * msPerDay < now - t)%Z →
     loadProgress now w = clearProgress w)
  ∧ (∀ p, localStorage w = Some (TextJson (JObject p)) →
     pTimestamp p = TsNumber (now - 8 * msPerDay) →
     loadProgress now w = clearProgress w)
  ∧ (localStorage w = Some TextMalformed →
     loadProgress now w = clearProgress w)
  ∧ (∀ v, localStorage w = Some (TextJson v) → isObject v = false →
     loadProgress now w = clearProgress w)
  ∧ (displayedBlessings (clearProgress w) = displayedBlessings w
     ∧ currentBlessing (clearProgress w) = currentBlessing w
     ∧ allBlessings (clearProgress w) = allBlessings w
     ∧ loadedBlessings (clearProgress w) = loadedBlessings w
     ∧ pageSize (clearProgress w) = pageSize w
     ∧ currentPage (clearProgress w) = currentPage w
     ∧ clickCount (clearProgress w) = clickCount w
     ∧ localStorage (clearProgress w) = None)
  ∧ (localStorage w = Some TextEmpty → loadProgress now w = w)
  ∧ (localStorage w = Some (TextJson JArray) →
     loadProgress now w = restore (Progress None None None TsUndefined) w).
Proof.
  assert (Hold : ∀ p t, localStorage w = Some (TextJson (JObject p)) →
     pTimestamp p = TsNumber t → (7 * msPerDay < now - t)%Z →
     loadProgress now w = clearProgress w).
  { intros p t Hs Ht Hage. rewrite (loadProgress_object now w p Hs), Ht.
    by rewrite (proj2 (expired_number now t) Hage). }
  split; [exact Hold|]. split.
  { intros p Hs Ht. apply (Hold p _ Hs Ht). unfold msPerDay. lia. }
  split.
  { intros Hs. unfold loadProgress, loadProgress_try. by rewrite Hs. }
  split.
  { intros v Hs Hv. unfold loadProgress, loadProgress_try. rewrite Hs.
    destruct v as [|[]|z|s| |p]; simpl; try done.
    - by destruct (z =? 0)%Z.
    - by destruct (truthy_string _). }
  split; [done|]. split.
  - intros Hs. unfold loadProgress, loadProgress_try. by rewrite Hs.
  - intros Hs. unfold loadProgress, loadProgress_try. by rewrite Hs.
Qed.

(** The store left by a visit on day 0 and read on day 9. *)
Lemma loadProgress_discards_witness :
  loadProgress (9 * msPerDay) (page_load (localStorage firstVisit))
  = page_load None.
Proof.
  refine (proj1 (loadProgress_discards (9 * msPerDay)
                   (page_load (localStorage firstVisit)))
            (progressOf 2000 firstVisit) 2000%Z _ _ _).
  - reflexivity.
  - reflexivity.
  - vm_compute. reflexivity.
Defined.

(** C4 (as stated) fails.  The empty text is no JSON, and an array is no
    progress record; [loadProgress] leaves both in the store. *)
Lemma loadProgress_keeps_empty_text_and_array :
  localStorage (loadProgress 3000 (page_load (Some TextEmpty)))
  = Some TextEmpty
  ∧ localStorage (loadProgress 3000 (page_load (Some (TextJson JArray))))
    = Some (TextJson JArray).
Proof. split; reflexivity. Qed.

(** C5.  A record less than seven days old with
    [displayedBlessings = ["a","b"]] restores the displayed set
    [{"a","b"}]; and whatever [saveProgress] stored, a [loadProgress] within
    seven days on a world that holds that store restores the displayed set,
    the cursor and the click count that were saved. *)
Theorem loadProgress_restores_saved :
  (∀ now w p t, localStorage w = Some (TextJson (JObject p)) →
     pTimestamp p = TsNumber t → (now - t ≤ 7 * msPerDay)%Z →
     pDisplayedBlessings p = Some [KText "a"; KText "b"] →
     displayedBlessings (loadProgress now w) = {[KText "a"; KText "b"]})
  ∧ (∀ saved later w w', (later - saved ≤ 7 * msPerDay)%Z →
     localStorage w' = localStorage (saveProgress saved w) →
     displayedBlessings (loadProgress later w') = displayedBlessings w
     ∧ currentPage (loadProgress later w') = currentPage w
     ∧ clickCount (loadProgress later w') = clickCount w
     ∧ localStorage (loadProgress later w') = localStorage w').
Proof.
  assert (Hfresh : ∀ now t, (now - t ≤ 7 * msPerDay)%Z →
            expired now (TsNumber t) = false).
  { intros now t Hage. apply not_true_iff_false.
    rewrite expired_number. lia. }
  split.
  - intros now w p t Hs Ht Hage Hd.
    rewrite (loadProgress_object now w p Hs), Ht, (Hfresh now t Hage).
    simpl. rewrite Hd. simpl. set_solver.
  - intros saved later w w' Hage Hs.
    rewrite (loadProgress_object later w' _ Hs). simpl.
    rewrite (Hfresh later saved Hage). simpl.
    by rewrite list_to_set_elements_L.
Qed.

(** One hour after the store was written, for both parts. *)
Lemma loadProgress_restores_saved_witness :
  displayedBlessings
    (loadProgress 3600000
       (page_load
          (Some (TextJson (JObject
             (Progress (Some [KText "a"; KText "b"]) (Some 1) (Some 2)
                       (TsNumber 0)))))))
  = {[KText "a"; KText "b"]}
  ∧ currentPage
      (loadProgress (2000 + 3600000) (page_load (localStorage firstVisit)))
    = currentPage firstVisit.
Proof.
  split.
  - refine (proj1 loadProgress_restores_saved 3600000%Z
              (page_load (Some (TextJson (JObject
                 (Progress (Some [KText "a"; KText "b"]) (Some 1) (Some 2)
                           (TsNumber 0))))))
              (Progress (Some [KText "a"; KText "b"]) (Some 1) (Some 2)
                        (TsNumber 0))
              0%Z eq_refl eq_refl _ eq_refl).
    vm_compute. discriminate.
  - refine (proj1 (proj2 (proj2 loadProgress_restores_saved 2000%Z
              (2000 + 3600000)%Z
              (updateClickCount
                 (markDisplayed (KText "g1")
                    (set_currentBlessing (Some (Blessing "g1" "technical"))
                       (init fallbackData keepOrder 1000 (page_load None)))))
              (page_load (localStorage firstVisit)) _ _))).
    + vm_compute. discriminate.
    + vm_compute. reflexivity.
Defined.




(** ** The retry loop *)

Section RetryFacts.

Context {A E : Type}.
Variable operation : nat → E + A.
Variable checkNetworkConnection : nat → bool.
Variable networkError : E.
Variables maxRetries delay : nat.

Local Abbreviation retryFrom :=
  (Retry.retryFrom operation checkNetworkConnection networkError
     maxRetries delay).
Local Abbreviation failing := (Retry.failing operation checkNetworkConnection).
Local Abbreviation backoff := (Retry.backoff delay).

(** The loop, one iteration unfolded. *)
Lemma retryFrom_cases attempt :
  retryFrom attempt =
    if attempt <=? maxRetries then
      match operation attempt with
      | inr a => Retry.Run (Retry.Returned a) 1 []
      | inl e =>
          if attempt =? maxRetries then Retry.Run (Retry.Threw e) 1 []
          else if checkNetworkConnection attempt
               then Retry.after (delay * attempt) (retryFrom (S attempt))
               else Retry.Run (Retry.Threw networkError) 1 []
      end
    else Retry.Run Retry.Undefined 0 [].
Proof.
  funelim (retryFrom attempt); try rewrite <- Heqcall;
    repeat match goal with
    | H : sigmaI _ _ _ = _ |- _ => clear H
    | H : (_ <=? _) = _ |- _ => rewrite H; clear H
    | H : (_ =? _) = _ |- _ => rewrite H; clear H
    | H : operation _ = _ |- _ => rewrite H; clear H
    | H : checkNetworkConnection _ = _ |- _ => rewrite H; clear H
    end; done.
Qed.

(** A failed attempt that is not the last, with the network reachable, is
    followed by a wait of [delay * attempt] and the next attempt. *)
Lemma retryFrom_next attempt :
  attempt < maxRetries →
  (∃ e, operation attempt = inl e) → checkNetworkConnection attempt = true →
  retryFrom attempt
  = Retry.after (delay * attempt) (retryFrom (S attempt)).
Proof.
  intros Hlt [e He] Hon. rewrite retryFrom_cases at 1.
  rewrite He, Hon.
  rewrite (proj2 (Nat.leb_le _ _)), (proj2 (Nat.eqb_neq _ _)) by lia.
  done.
Qed.

(** The attempts from [first] up to [last], all failing, add their calls
    and their waits to what the loop does from [last]. *)
Lemma retryFrom_failing first last :
  first ≤ last → last ≤ maxRetries → failing first last →
  retryFrom first
  = Retry.Run (Retry.settled (retryFrom last))
              (last - first + Retry.calls (retryFrom last))
              (backoff first last ++ Retry.waits (retryFrom last)).
Proof.
  intros Hle Hmax Hfail.
  remember (last - first) as n eqn:Hn. revert first Hle Hfail Hn.
  induction n as [|n IH]; intros first Hle Hfail Hn.
  - assert (first = last) as -> by lia.
    unfold Retry.backoff. rewrite Nat.sub_diag. simpl.
    by destruct (retryFrom last).
  - destruct (Hfail first ltac:(lia)) as [Hop Hon].
    rewrite retryFrom_next by (done || lia).
    rewrite (IH (S first)); [|lia|intros j Hj; apply Hfail; lia|lia].
    unfold Retry.after, Retry.backoff. simpl.
    replace (last - first) with (S (last - S first)) by lia.
    done.
Qed.

Lemma retryFrom_calls attempt :
  Retry.calls (retryFrom attempt) ≤ S maxRetries - attempt.
Proof.
  remember (S maxRetries - attempt) as n eqn:Hn. revert attempt Hn.
  induction n as [|n IH]; intros attempt Hn; rewrite retryFrom_cases.
  - by rewrite (proj2 (Nat.leb_gt _ _)) by lia.
  - destruct (attempt <=? maxRetries); [|simpl; lia].
    destruct (operation attempt); [|simpl; lia].
    destruct (attempt =? maxRetries) eqn:Hlast; [simpl; lia|].
    destruct (checkNetworkConnection attempt); [|simpl; lia].
    apply Nat.eqb_neq in Hlast. simpl.
    specialize (IH (S attempt)). lia.
Qed.

Lemma retryFrom_waits attempt i ms :
  Retry.waits (retryFrom attempt) !! i = Some ms → ms = delay * (attempt + i).
Proof.
  remember (S maxRetries - attempt) as n eqn:Hn. revert attempt i Hn.
  induction n as [|n IH]; intros attempt i Hn; rewrite retryFrom_cases.
  - by rewrite (proj2 (Nat.leb_gt _ _)) by lia.
  - destruct (attempt <=? maxRetries) eqn:Hin; [|done].
    destruct (operation attempt); [|done].
    destruct (attempt =? maxRetries) eqn:Hlast; [done|].
    destruct (checkNetworkConnection attempt); [|done].
    apply Nat.eqb_neq in Hlast. apply Nat.leb_le in Hin. simpl.
    destruct i as [|i]; simpl.
    + intros [= <-]. f_equal. lia.
    + intros Hi. rewrite (IH (S attempt) i) by (done || lia). f_equal. lia.
Qed.

(** C8.  [retryOperation] calls the operation at most [maxRetries] times,
    three as [AppInitializer.init] calls it.  It returns the result of the
    first attempt that succeeds; it rethrows the error of the last attempt
    when that one fails too; and it stops with the network error after a
    failed attempt, not the last, whose probe reports the network down.  In
    each case the waits so far are [delay * 1], [delay * 2], ...: the wait
    before attempt [k + 1] is [delay * k]. *)
Theorem retryOperation_bounded_backoff :
  let r :=
    Retry.retryOperation operation checkNetworkConnection networkError
      maxRetries delay in
  Retry.calls r ≤ maxRetries
  ∧ (∀ k ms, Retry.waits r !! (k - 1) = Some ms → 1 ≤ k → ms = delay * k)
  ∧ (∀ k a, 1 ≤ k ≤ maxRetries → failing 1 k → operation k = inr a →
       r = Retry.Run (Retry.Returned a) k (backoff 1 k))
  ∧ (∀ e, 1 ≤ maxRetries → failing 1 maxRetries →
       operation maxRetries = inl e →
       r = Retry.Run (Retry.Threw e) maxRetries (backoff 1 maxRetries))
  ∧ (∀ k e, 1 ≤ k < maxRetries → failing 1 k → operation k = inl e →
       checkNetworkConnection k = false →
       r = Retry.Run (Retry.Threw networkError) k (backoff 1 k)).
Proof.
  intros r. unfold r, Retry.retryOperation.
  split; [pose proof (retryFrom_calls 1); lia|]. split.
  { intros k ms Hms Hk. apply retryFrom_waits in Hms. subst ms.
    f_equal. lia. }
  split; [|split].
  - intros k a Hk Hfail Hop.
    rewrite (retryFrom_failing 1 k) by (done || lia).
    rewrite (retryFrom_cases k), Hop, (proj2 (Nat.leb_le _ _)) by lia.
    simpl. rewrite app_nil_r. f_equal. lia.
  - intros e Hmax Hfail Hop.
    rewrite (retryFrom_failing 1 maxRetries) by (done || lia).
    rewrite (retryFrom_cases maxRetries), Hop, Nat.leb_refl, Nat.eqb_refl.
    simpl. rewrite app_nil_r. f_equal. lia.
  - intros k e Hk Hfail Hop Hoff.
    rewrite (retryFrom_failing 1 k) by (done || lia).
    rewrite (retryFrom_cases k), Hop, Hoff.
    rewrite (proj2 (Nat.leb_le _ _)), (proj2 (Nat.eqb_neq _ _)) by lia.
    simpl. rewrite app_nil_r. f_equal. lia.
Qed.

End RetryFacts.

(** Two failures with the network up, then success, as [init] calls it:
    three calls, waits of one and two seconds. *)
Lemma retryOperation_bounded_backoff_witness :
  Retry.retryOperation
    (λ k, if k <? 3 then inl "not loaded" else inr 1024) (λ _, true)
    "offline" 3 1000
  = Retry.Run (Retry.Returned 1024) 3 [1000; 2000].
Proof.
  refine (proj1 (proj2 (proj2
            (retryOperation_bounded_backoff
               (λ k, if k <? 3 then inl "not loaded" else inr 1024)
               (λ _, true) "offline" 3 1000)))
            3 1024 _ _ _).
  - lia.
  - intros j Hj. split; [exists "not loaded"|reflexivity].
    destruct j as [|[|[|j]]]; (reflexivity || lia).
  - reflexivity.
Defined.

(** The loop runs as well as it is specified: the network goes down after
    the first failure. *)
Example retryOperation_offline :
  Retry.retryOperation
    (λ _ : nat, inl "not loaded" : string + nat) (λ _, false)
    "offline" 3 1000
  = Retry.Run (Retry.Threw "offline") 1 [].
Proof. reflexivity. Qed.

(** ** A run of the viewer *)

(** Three blessings, two per page.  The first draw loads the second page;
    three clicks display the three blessings, and the fourth draw answers
    [null]. *)
Example three_blessings_two_per_page :
  let w0 :=
    loadNextPage
      (World ∅ None [Blessing "A" "x"; Blessing "B" "y"; Blessing "C" "z"]
             [] 2 0 0 None) in
  let w3 := session [Click 0 1; Click 0 2; Click 0 3] w0 in
  loadedBlessings w0 = [Blessing "A" "x"; Blessing "B" "y"]
  ∧ displayedBlessings w3 = {[KText "A"; KText "B"; KText "C"]}
  ∧ clickCount w3 = 3
  ∧ fst (getRandomUnDisplayedBlessing 0 w3) = None.
Proof. cbv zeta. split; [|split; [|split]]; compute_done. Qed.

(** ** The shuffle *)

Lemma swap_length i j l : length (swap i j l) = length l.
Proof.
  unfold swap. destruct (l !! i), (l !! j); by rewrite ?length_insert.
Qed.

Lemma swap_lookup i j l k :
  i < length l → j < length l →
  swap i j l !! k
  = l !! (if decide (k = i) then j else if decide (k = j) then i else k).
Proof.
  intros Hi Hj. unfold swap.
  destruct (lookup_lt_is_Some_2 _ _ Hi) as [x Hx].
  destruct (lookup_lt_is_Some_2 _ _ Hj) as [y Hy].
  rewrite Hx, Hy.
  destruct (decide (k = j)) as [->|Hkj].
  - rewrite list_lookup_insert_eq by (by rewrite length_insert).
    destruct (decide (j = i)) as [->|]; congruence.
  - rewrite list_lookup_insert_ne by done.
    destruct (decide (k = i)) as [->|Hki].
    + by rewrite list_lookup_insert_eq.
    + by rewrite list_lookup_insert_ne.
Qed.

Lemma swap_Permutation i j l : swap i j l ≡ₚ l.
Proof.
  destruct (decide (i < length l ∧ j < length l)) as [[Hi Hj]|Hout].
  - apply Permutation_inj. split; [apply swap_length|].
    exists (λ k, if decide (k = i) then j
                 else if decide (k = j) then i else k).
    split; [|intros k; by apply swap_lookup].
    intros a b. repeat case_decide; congruence.
  - unfold swap.
    destruct (l !! i) eqn:Hx, (l !! j) eqn:Hy; try done.
    apply lookup_lt_Some in Hx, Hy. lia.
Qed.

Lemma shuffleFrom_Permutation rand i l : shuffleFrom rand i l ≡ₚ l.
Proof.
  revert l. induction i as [|i IH]; intros l; simpl; [done|].
  by rewrite IH, swap_Permutation.
Qed.

Lemma swap_app i j l k :
  i < length l → j < length l → swap i j (l ++ k) = swap i j l ++ k.
Proof.
  intros Hi Hj. unfold swap. rewrite !lookup_app_l by done.
  destruct (l !! i), (l !! j); try done.
  by rewrite !insert_app_l by (by rewrite ?length_insert).
Qed.

(** The steps from index [i] down leave the items past [i] where they are. *)
Lemma shuffleFrom_app rand i l k :
  i < length l → shuffleFrom rand i (l ++ k) = shuffleFrom rand i l ++ k.
Proof.
  revert l. induction i as [|i IH]; intros l Hi; simpl; [done|].
  assert (Hj : rand (S i) mod (S i + 1) < length l).
  { pose proof (Nat.mod_upper_bound (rand (S i)) (S i + 1)). lia. }
  rewrite swap_app by done. apply IH. rewrite swap_length. lia.
Qed.

(** They read the draws of the indices up to [i] only. *)
Lemma shuffleFrom_ext rand rand' i l :
  (∀ k, k ≤ i → rand k = rand' k) →
  shuffleFrom rand i l = shuffleFrom rand' i l.
Proof.
  revert l. induction i as [|i IH]; intros l Heq; simpl; [done|].
  rewrite (Heq (S i)) by done. apply IH. intros k Hk. apply Heq. lia.
Qed.

Lemma swap_last_lookup n j l x :
  length l = S n → l !! j = Some x → swap n j l !! n = Some x.
Proof.
  intros Hlen Hj. pose proof (lookup_lt_Some _ _ _ Hj).
  rewrite swap_lookup by lia. by rewrite decide_True.
Qed.

Lemma shuffleFrom_S rand i l :
  shuffleFrom rand (S i) l
  = shuffleFrom rand i (swap (S i) (rand (S i) mod (S i + 1)) l).
Proof. reflexivity. Qed.

Lemma shuffle_onto l' :
  ∀ l, l ≡ₚ l' → ∃ rand, shuffleFrom rand (length l - 1) l = l'.
Proof.
  induction l' as [|z l' IH] using rev_ind; intros l Hperm.
  - apply Permutation_nil_r in Hperm as ->. by exists (λ _, 0).
  - assert (Hlen : length l = S (length l')).
    { rewrite (Permutation_length Hperm), length_app. simpl. lia. }
    assert (Hz : z ∈ l) by (rewrite Hperm; set_solver).
    apply list_elem_of_lookup in Hz as [j Hj].
    pose proof (lookup_lt_Some _ _ _ Hj) as Hjlt.
    set (n := length l') in *.
    set (l1 := swap n j l).
    assert (Hl1 : l1 = take n l1 ++ [z]).
    { assert (Hlast : l1 !! n = Some z) by by apply swap_last_lookup.
      rewrite <- (take_drop_middle _ _ _ Hlast) at 1. f_equal.
      rewrite drop_ge; [done|]. unfold l1. rewrite swap_length. lia. }
    assert (Hm : take n l1 ≡ₚ l').
    { apply (inj (.++ [z])). rewrite <- Hl1. unfold l1.
      by rewrite swap_Permutation. }
    assert (Hmlen : length (take n l1) = n).
    { rewrite length_take. unfold l1. rewrite swap_length. lia. }
    destruct (IH _ Hm) as [rand0 Hrand0]. rewrite Hmlen in Hrand0.
    exists (λ i, if decide (i = n) then j else rand0 i).
    rewrite Hlen. simpl. rewrite Nat.sub_0_r.
    destruct n as [|n'] eqn:Hn.
    + simpl. simpl in Hrand0. rewrite Hrand0 in Hl1.
      destruct l as [|a [|??]]; simplify_eq/=; try lia.
      destruct j; simplify_eq/=; done.
    + rewrite shuffleFrom_S, decide_True by done.
      rewrite Nat.mod_small by lia.
      fold l1. rewrite Hl1, shuffleFrom_app by lia.
      f_equal. simpl in Hrand0. rewrite Nat.sub_0_r in Hrand0.
      rewrite <- Hrand0. apply shuffleFrom_ext.
      intros k Hk. rewrite decide_False by lia. done.
Qed.

(** X1.  Whatever the draws, [shuffleArray] returns a rearrangement of its
    argument: the same items, each as often as before. *)
Theorem shuffleArray_permutes rand l : shuffleArray rand l ≡ₚ l.
Proof. apply shuffleFrom_Permutation. Qed.

(** X2.  Every rearrangement of the array is the result of [shuffleArray]
    for some draws. *)
Theorem shuffleArray_reaches_every_order l l' :
  l ≡ₚ l' → ∃ rand, shuffleArray rand l = l'.
Proof. apply shuffle_onto. Qed.

Lemma shuffleArray_reaches_every_order_witness :
  ∃ rand,
    shuffleArray rand
      [Blessing "a" "x"; Blessing "b" "x"; Blessing "c" "y"]
    = [Blessing "c" "y"; Blessing "a" "x"; Blessing "b" "x"].
Proof.
  apply (shuffleArray_reaches_every_order
           [Blessing "a" "x"; Blessing "b" "x"; Blessing "c" "y"]
           [Blessing "c" "y"; Blessing "a" "x"; Blessing "b" "x"]).
  apply (Permutation_app_comm [_; _] [_]).
Defined.

Lemma elem_of_flatten db b :
  b ∈ flatten db ↔ ∃ ts, (category b, ts) ∈ db ∧ text b ∈ ts.
Proof.
  unfold flatten. induction db as [|[c ts] db IH]; simpl.
  - split; [by intros ?%elem_of_nil|]. by intros (? & ?%elem_of_nil & _).
  - rewrite elem_of_app, IH. split.
    + intros [Hb|(ts' & Hc & Ht)].
      * apply list_elem_of_fmap in Hb as (t & -> & Ht).
        exists ts. split; [left|done].
      * exists ts'. split; [by right|done].
    + intros (ts' & Hc & Ht). apply elem_of_cons in Hc as [[= <- <-]|Hc].
      * left. apply list_elem_of_fmap. exists (text b). by destruct b.
      * right. by exists ts'.
Qed.

Lemma length_flatten db :
  length (flatten db) = sum_list ((λ c, length (snd c)) <$> db).
Proof.
  unfold flatten. induction db as [|c db IH]; [done|].
  simpl. by rewrite length_app, length_map, IH.
Qed.

(** X3.  [loadAllBlessings] replaces the corpus by the texts of the
    database, each with the category it is listed under: a blessing is in the
    corpus exactly when its text is listed under its category, the corpus
    has as many items as the database has texts, and nothing else changes,
    the window included. *)
Theorem loadAllBlessings_corpus db rand w :
  let w' := loadAllBlessings db rand w in
  (∀ b, b ∈ allBlessings w' ↔ ∃ ts, (category b, ts) ∈ db ∧ text b ∈ ts)
  ∧ length (allBlessings w') = sum_list ((λ c, length (snd c)) <$> db)
  ∧ allBlessings w' ≡ₚ flatten db
  ∧ loadedBlessings w' = loadedBlessings w
  ∧ displayedBlessings w' = displayedBlessings w
  ∧ currentPage w' = currentPage w
  ∧ localStorage w' = localStorage w.
Proof.
  intros w'.
  assert (Hperm : allBlessings w' ≡ₚ flatten db)
    by apply shuffleFrom_Permutation.
  split; [|split; [|done]].
  - intros b. by rewrite Hperm, elem_of_flatten.
  - by rewrite Hperm, length_flatten.
Qed.

(** ** More on selection *)

Lemma unDisplayed_loadNextPage w :
  unDisplayed w ⊆ unDisplayed (loadNextPage w).
Proof.
  intros b [Hfresh Hin]%list_elem_of_filter.
  apply list_elem_of_filter. split; [done|].
  rewrite loadNextPage_loaded. set_solver.
Qed.

Lemma randomElement_Some draw l : l ≠ [] → is_Some (randomElement draw l).
Proof.
  intros Hl. unfold randomElement. apply lookup_lt_is_Some_2.
  apply Nat.mod_upper_bound. by destruct l.
Qed.

(** X4.  As long as the window holds a blessing whose text is not
    displayed, [getRandomUnDisplayedBlessing] returns a blessing, never
    [null], whatever the draw. *)
Theorem getRandomUnDisplayedBlessing_finds_window_item draw w b :
  b ∈ loadedBlessings w → KText (text b) ∉ displayedBlessings w →
  is_Some (fst (getRandomUnDisplayedBlessing draw w)).
Proof.
  intros Hin Hfresh.
  assert (Hb : b ∈ unDisplayed w) by (by apply list_elem_of_filter).
  rewrite getRandomUnDisplayedBlessing_two_way.
  destruct (andb _ _); simpl; apply randomElement_Some.
  - apply unDisplayed_loadNextPage in Hb. by intros Hnil; rewrite Hnil in Hb;
      apply elem_of_nil in Hb.
  - by intros Hnil; rewrite Hnil in Hb; apply elem_of_nil in Hb.
Qed.

Lemma getRandomUnDisplayedBlessing_finds_window_item_witness :
  is_Some
    (fst (getRandomUnDisplayedBlessing 7
            (init threePages keepOrder 1000 (page_load None)))).
Proof.
  apply (getRandomUnDisplayedBlessing_finds_window_item 7
           (init threePages keepOrder 1000 (page_load None))
           (Blessing "t3" "c")); compute_done.
Defined.

(** X5.  One call loads at most one page: the world it leaves is the world
    it found, or that world after one [loadNextPage]; and it loads nothing
    when the window has ten candidates or more, or when the cursor has
    reached the end of the corpus. *)
Theorem getRandomUnDisplayedBlessing_loads_one_page draw w :
  let w' := snd (getRandomUnDisplayedBlessing draw w) in
  (w' = w ∨ w' = loadNextPage w)
  ∧ (10 ≤ length (unDisplayed w) → w' = w)
  ∧ (length (allBlessings w) ≤ currentPage w * pageSize w → w' = w)
  ∧ (length (unDisplayed w) < 10 →
     currentPage w * pageSize w < length (allBlessings w) →
     w' = loadNextPage w).
Proof.
  intros w'. unfold w'. rewrite getRandomUnDisplayedBlessing_two_way.
  unfold morePages.
  destruct (bool_decide (length (unDisplayed w) < 10)) eqn:Hfew;
    destruct (bool_decide (_ * _ < _)) eqn:Hmore; simpl;
    try apply bool_decide_eq_true in Hfew;
    try apply bool_decide_eq_false in Hfew;
    try apply bool_decide_eq_true in Hmore;
    try apply bool_decide_eq_false in Hmore;
    (split; [auto|]); repeat split; intros; (done || lia).
Qed.

Lemma getRandomUnDisplayedBlessing_loads_one_page_witness :
  snd (getRandomUnDisplayedBlessing 0 afterHundredSelections)
  = loadNextPage afterHundredSelections.
Proof.
  apply (getRandomUnDisplayedBlessing_loads_one_page 0
           afterHundredSelections); vm_compute; lia.
Defined.

(** ** What every state of the viewer satisfies *)

(** A click, case by case: at most one page is loaded; then nothing more
    happens, or a blessing of the window whose text was not displayed is
    shown. *)
Lemma showBlessing_draw_cases draw now w :
  ∃ w1, (w1 = w ∨ w1 = loadNextPage w)
    ∧ (showBlessing None draw now w = w1
       ∨ ∃ b, b ∈ loadedBlessings w1
           ∧ (KText (text b) ∉ displayedBlessings w)
           ∧ showBlessing None draw now w = shown b now w1).
Proof.
  unfold showBlessing.
  pose proof (getRandomUnDisplayedBlessing_fresh draw w) as Hfresh.
  rewrite getRandomUnDisplayedBlessing_two_way in *.
  destruct (andb _ _); simpl in *;
    [exists (loadNextPage w)|exists w]; (split; [auto|]);
    (destruct (randomElement draw _) as [b|]; [|by left]);
    destruct (Hfresh b eq_refl) as [Hnew Hin];
    (destruct (complete b); [right; by exists b|by left]).
Qed.

(** The choice of a search result, case by case. *)
Lemma showSpecificBlessing_cases index now w :
  (allBlessings w !! index = None ∧ showSpecificBlessing index now w = w)
  ∨ ∃ b w1, allBlessings w !! index = Some b
      ∧ (w1 = w ∨ w1 = set_loadedBlessings (loadedBlessings w ++ [b]) w)
      ∧ (showSpecificBlessing index now w
         = saveProgress now (markDisplayed (KIndex index) w1)
         ∨ showSpecificBlessing index now w
           = saveProgress now (markDisplayed (KIndex index) (shown b now w1))).
Proof.
  unfold showSpecificBlessing.
  destruct (allBlessings w !! index) as [b|]; [right|by left].
  exists b. unfold showBlessing.
  destruct (loadedHasText (text b) w);
    [exists w|exists (set_loadedBlessings (loadedBlessings w ++ [b]) w)];
    (split; [done|]); (split; [auto|]);
    destruct (complete b); auto.
Qed.

Lemma loadNextPage_within_corpus w :
  loadedBlessings w ⊆ allBlessings w →
  loadedBlessings (loadNextPage w) ⊆ allBlessings w.
Proof.
  intros Hin. rewrite loadNextPage_loaded.
  intros x [Hx|Hx]%elem_of_app; [by apply Hin|].
  unfold page in Hx. by eapply subseteq_drop, subseteq_take.
Qed.

Lemma paged_loadNextPage w :
  loadedBlessings w ⊆ allBlessings w → pageSize w = 50 →
  paged (loadNextPage w).
Proof.
  intros Hin Hps. split; [by apply (loadNextPage_within_corpus w)|].
  split; [done|]. simpl. lia.
Qed.

Lemma paged_init db rand now stored :
  paged (init db rand now (page_load stored)).
Proof.
  unfold init. apply paged_loadNextPage.
  - unfold loadProgress, loadProgress_try. simpl.
    destruct stored as [saved|]; [|by apply list_subseteq_nil].
    destruct (truthy_text saved); [|by apply list_subseteq_nil].
    destruct (JSON_parse saved) as [v|]; [|by apply list_subseteq_nil].
    destruct (negb _ || negb _); [by apply list_subseteq_nil|].
    destruct (expired _ _); by apply list_subseteq_nil.
  - unfold loadProgress, loadProgress_try. simpl.
    destruct stored as [saved|]; [|done].
    destruct (truthy_text saved); [|done].
    destruct (JSON_parse saved) as [v|]; [|done].
    destruct (negb _ || negb _); [done|].
    by destruct (expired _ _).
Qed.

Lemma paged_act a w : paged w → paged (act a w).
Proof.
  intros (Hin & Hps & Hcp). destruct a as [draw now|index now]; simpl.
  - destruct (showBlessing_draw_cases draw now w)
      as (w1 & Hw1 & [->|(b & _ & _ & ->)]);
      destruct Hw1 as [->| ->];
      first [by repeat split | by apply paged_loadNextPage
            | destruct (paged_loadNextPage w Hin Hps) as (? & ? & ?);
              by repeat split].
  - destruct (showSpecificBlessing_cases index now w)
      as [[_ ->]|(b & w1 & Hb & Hw1 & Hres)]; [by repeat split|].
    assert (Hw1' : paged w1).
    { destruct Hw1 as [->| ->]; [by repeat split|].
      split; [|by split]. simpl.
      intros x [Hx|Hx%list_elem_of_singleton]%elem_of_app; [by apply Hin|].
      subst x. by eapply list_elem_of_lookup_2. }
    destruct Hres as [->| ->]; exact Hw1'.
Qed.

Lemma paged_reset w : paged w → paged (reset w).
Proof.
  intros (Hin & Hps & Hcp).
  destruct (paged_loadNextPage
              (set_currentPage 0 (set_loadedBlessings []
                 (set_currentBlessing None (set_displayedBlessings ∅ w)))))
    as (? & ? & ?); [by apply list_subseteq_nil|done|].
  by repeat split.
Qed.

Lemma reachable_paged w : reachable w → paged w.
Proof.
  induction 1; auto using paged_init, paged_act, paged_reset.
Qed.

Lemma inSync_shown b now w :
  1 ≤ currentPage w → inSync (shown b now w).
Proof.
  intros Hcp. unfold inSync, shown. simpl.
  split; [done|]. split; [done|]. split; [|by eexists].
  exists (currentPage w). split; [done|lia].
Qed.

Lemma inSync_loadNextPage w : inSync w → inSync (loadNextPage w).
Proof.
  unfold inSync. simpl.
  destruct (localStorage w) as [[| |[| | | | |p]]|]; try done.
  intros (Hd & Hc & (c & Hp & Hle) & Ht).
  repeat split; try done. exists c. split; [done|lia].
Qed.

Lemma inSync_act a w : paged w → inSync w → inSync (act a w).
Proof.
  intros Hpaged Hsync.
  pose proof (paged_act a w Hpaged) as (_ & _ & Hcp').
  destruct Hpaged as (_ & _ & Hcp).
  destruct a as [draw now|index now]; simpl in *.
  - destruct (showBlessing_draw_cases draw now w)
      as (w1 & Hw1 & [Heq|(b & _ & _ & Heq)]); rewrite Heq in *.
    + destruct Hw1 as [->| ->]; [done|by apply inSync_loadNextPage].
    + apply inSync_shown. by destruct Hw1 as [->| ->]; simpl; lia.
  - destruct (showSpecificBlessing_cases index now w)
      as [[_ ->]|(b & w1 & Hb & Hw1 & [Heq|Heq])]; [done|..];
      rewrite Heq in *; unfold inSync; simpl;
      (split; [done|]); (split; [done|]); (split; [|by eexists]);
      eexists; (split; [done|]); simpl in *; lia.
Qed.

Lemma inSync_reset w : inSync (reset w).
Proof. by unfold inSync. Qed.

(** What [loadProgress] makes of a store that agrees with a memory. *)
Lemma loadProgress_inSync db rand now w :
  inSync w →
  let w' := loadProgress now
              (loadAllBlessings db rand (page_load (localStorage w))) in
  (localStorage w' = None ∧ displayedBlessings w' = ∅ ∧ clickCount w' = 0
   ∧ currentPage w' = 0
   ∧ (localStorage w = None
      ∨ ∃ p t, localStorage w = Some (TextJson (JObject p))
          ∧ pTimestamp p = TsNumber t ∧ (7 * msPerDay < now - t)%Z))
  ∨ (∃ p t c, localStorage w = Some (TextJson (JObject p))
       ∧ pTimestamp p = TsNumber t ∧ (now - t ≤ 7 * msPerDay)%Z
       ∧ pCurrentPage p = Some c ∧ 1 ≤ c
       ∧ localStorage w' = localStorage w
       ∧ displayedBlessings w' = displayedBlessings w
       ∧ clickCount w' = clickCount w
       ∧ currentPage w' = c).
Proof.
  intros Hsync w'. unfold inSync in Hsync.
  destruct (localStorage w) as [[| |[| | | | |p]]|] eqn:Hs; try done.
  - destruct Hsync as (Hd & Hc & (c & Hp & Hle) & (t & Ht)).
    assert (Hw' : w' = if expired now (pTimestamp p)
                       then clearProgress (loadAllBlessings db rand
                              (page_load (Some (TextJson (JObject p)))))
                       else restore p (loadAllBlessings db rand
                              (page_load (Some (TextJson (JObject p)))))).
    { unfold w'. by apply loadProgress_object. }
    rewrite Ht in Hw'.
    destruct (expired now (TsNumber t)) eqn:Hexp.
    + left. rewrite Hw'. repeat split; try done.
      right. exists p, t. repeat split; try done.
      by apply expired_number.
    + right. exists p, t, c. rewrite Hw'. simpl.
      rewrite Hd, Hc, Hp. simpl. rewrite list_to_set_elements_L.
      repeat split; try done; try lia.
      apply not_true_iff_false in Hexp. rewrite expired_number in Hexp. lia.
  - left. unfold w'. by repeat split; try left.
Qed.

Lemma inSync_reload db rand now w :
  inSync w → inSync (init db rand now (page_load (localStorage w))).
Proof.
  intros Hsync. unfold init. apply inSync_loadNextPage.
  destruct (loadProgress_inSync db rand now w Hsync)
    as [(Hs & Hd & Hc & _)|(p & t & c & Hs & Ht & _ & Hp & Hc1 & Hs' & Hd & Hc & Hcp)];
    unfold inSync.
  - by rewrite Hs.
  - rewrite Hs', Hd, Hc, Hcp, Hs.
    unfold inSync in Hsync. rewrite Hs in Hsync.
    destruct Hsync as (? & ? & _ & ?).
    repeat split; try done. exists c. split; [done|lia].
Qed.

Lemma reachable_inSync w : reachable w → inSync w.
Proof.
  induction 1 as [db rand now|a w Hw IH|w Hw IH|db rand now w Hw IH].
  - apply (inSync_reload db rand now (reset (page_load None))).
    apply inSync_reset.
  - apply inSync_act; [by apply reachable_paged|done].
  - apply inSync_reset.
  - by apply inSync_reload.
Qed.

Lemma size_shown b now w :
  KText (text b) ∉ displayedBlessings w →
  size (displayedBlessings (shown b now w)) = S (size (displayedBlessings w))
  ∧ clickCount (shown b now w) = S (clickCount w).
Proof.
  intros Hnew. simpl. split; [|done].
  rewrite size_union by set_solver. by rewrite size_singleton.
Qed.

Lemma click_counted draw now w :
  size (displayedBlessings (showBlessing None draw now w)) + clickCount w
  = size (displayedBlessings w) + clickCount (showBlessing None draw now w).
Proof.
  destruct (showBlessing_draw_cases draw now w)
    as (w1 & Hw1 & [->|(b & _ & Hnew & ->)]).
  - by destruct Hw1 as [->| ->].
  - assert (Hd : displayedBlessings w1 = displayedBlessings w
                 ∧ clickCount w1 = clickCount w)
      by (by destruct Hw1 as [->| ->]).
    destruct Hd as [Hd Hc].
    destruct (size_shown b now w1) as [-> ->]; [by rewrite Hd|].
    rewrite Hd, Hc. lia.
Qed.

(** X7.  Clicks count what they display: over any run of clicks the
    displayed set grows by as many elements as the click count grows, so on
    a first visit with clicks only the number of displayed blessings is the
    click count. *)
Theorem clicks_count_displayed :
  (∀ clicks w,
     let w' := session (map (λ c, Click (fst c) (snd c)) clicks) w in
     size (displayedBlessings w') + clickCount w
     = size (displayedBlessings w) + clickCount w')
  ∧ (∀ db rand now clicks,
       let w' := session (map (λ c, Click (fst c) (snd c)) clicks)
                         (init db rand now (page_load None)) in
       size (displayedBlessings w') = clickCount w').
Proof.
  assert (Hgen : ∀ clicks w,
     let w' := session (map (λ c, Click (fst c) (snd c)) clicks) w in
     size (displayedBlessings w') + clickCount w
     = size (displayedBlessings w) + clickCount w').
  { induction clicks as [|[draw now] clicks IH]; intros w; simpl; [done|].
    specialize (IH (showBlessing None draw now w)). simpl in IH.
    pose proof (click_counted draw now w). lia. }
  split; [exact Hgen|].
  intros db rand now clicks w'.
  specialize (Hgen clicks (init db rand now (page_load None))).
  simpl in Hgen. fold w' in Hgen.
  change (size (displayedBlessings w') + 0 = size (∅ : gset key) + clickCount w')
    in Hgen.
  rewrite size_empty in Hgen. lia.
Qed.

Lemma paged_clicks clicks w :
  paged w → paged (session (map (λ c, Click (fst c) (snd c)) clicks) w).
Proof.
  revert w. induction clicks as [|c clicks IH]; intros w Hw; [done|].
  apply IH, paged_act, Hw.
Qed.

Lemma clicks_keep_within_corpus clicks w :
  paged w → displayedWithinCorpus w →
  displayedWithinCorpus
    (session (map (λ c, Click (fst c) (snd c)) clicks) w).
Proof.
  revert w. induction clicks as [|[draw t] clicks IH]; intros w Hpaged Hin;
    [done|].
  apply IH; [by apply (paged_act (Click draw t))|].
  apply showBlessing_draw_within_corpus; [apply Hpaged|done].
Qed.

Lemma first_visit_clicks_within_corpus db rand now clicks :
  displayedWithinCorpus
    (session (map (λ c, Click (fst c) (snd c)) clicks)
             (init db rand now (page_load None))).
Proof.
  apply clicks_keep_within_corpus; [apply paged_init|].
  intros k Hk. simpl in Hk. set_solver.
Qed.

(** X8.  On a first visit with clicks only, every element of the displayed
    set is the text of a corpus item. *)
Theorem clicks_only_displayed_within_corpus db rand now clicks :
  displayedWithinCorpus
    (session (map (λ c, Click (fst c) (snd c)) clicks)
             (init db rand now (page_load None))).
Proof. apply first_visit_clicks_within_corpus. Qed.

(** X9.  In every state of the viewer the window holds corpus items only,
    the page size is 50, and the cursor is at least 1. *)
Theorem window_within_corpus w :
  reachable w →
  loadedBlessings w ⊆ allBlessings w ∧ pageSize w = 50 ∧ 1 ≤ currentPage w.
Proof. apply reachable_paged. Qed.

Lemma window_within_corpus_witness :
  loadedBlessings afterHundredSelections ⊆ allBlessings afterHundredSelections
  ∧ pageSize afterHundredSelections = 50
  ∧ 1 ≤ currentPage afterHundredSelections.
Proof.
  apply (window_within_corpus afterHundredSelections).
  unfold afterHundredSelections.
  generalize (init threePages keepOrder 1000 (page_load None))
             (reach_first threePages keepOrder 1000).
  induction (map (λ i : nat, Select i 2000) (seq 0 100)) as [|a l IH];
    intros w Hw; [done|].
  apply IH, reach_act, Hw.
Defined.

(** What a reload finds depends on the store alone. *)
Lemma reload_from_inSync w db rand now :
  inSync w →
  let w' := init db rand now (page_load (localStorage w)) in
  (displayedBlessings w' = displayedBlessings w
   ∧ clickCount w' = clickCount w
   ∧ localStorage w' = localStorage w)
  ∨ (displayedBlessings w' = ∅ ∧ clickCount w' = 0 ∧ localStorage w' = None
     ∧ (localStorage w = None
        ∨ ∃ p t, localStorage w = Some (TextJson (JObject p))
            ∧ pTimestamp p = TsNumber t ∧ (7 * msPerDay < now - t)%Z)).
Proof.
  intros Hw w'.
  destruct (loadProgress_inSync db rand now w Hw)
    as [(Hs & Hd & Hc & _ & Hwhy)|(p & t & c & _ & _ & _ & _ & _ & Hs & Hd & Hc & _)].
  - right. by repeat split.
  - left. by repeat split.
Qed.

(** With the write succeeding, [showBlessingIf] is [showBlessing]. *)
Lemma showBlessingIf_written specific draw now w :
  showBlessingIf true specific draw now w = showBlessing specific draw now w.
Proof. reflexivity. Qed.

(** The click whose save throws: the memory is written, the store is not. *)
Lemma showBlessingIf_not_written draw now w b :
  fst (getRandomUnDisplayedBlessing draw w) = Some b → complete b = true →
  let w1 := showBlessingIf false None draw now w in
  displayedBlessings w1 = {[KText (text b)]} ∪ displayedBlessings w
  ∧ clickCount w1 = S (clickCount w)
  ∧ localStorage w1 = localStorage w.
Proof.
  intros Hdraw Hc. unfold showBlessingIf.
  pose proof (getRandomUnDisplayedBlessing_frame draw w) as Hframe.
  destruct (getRandomUnDisplayedBlessing draw w) as [chosen w0].
  simpl in Hdraw, Hframe. subst chosen. rewrite Hc. simpl.
  destruct Hframe as (Hd & _ & _ & _ & Hclick & Hs).
  by rewrite Hd, Hclick, Hs.
Qed.

(** X10.  As long as every write to the store has succeeded, a reload of the
    page loses no progress: [init] on fresh object literals and the store as
    it is restores the displayed set and the click count of the memory and
    keeps the store; unless the store is empty or its record more than seven
    days old, and then it starts with nothing displayed, no click and an
    empty store.  A click whose save throws is lost by a reload: the memory
    has the blessing displayed and the click counted, the store is as it
    was, and after the reload the blessing is not displayed and the click
    count is less than it was in memory. *)
Theorem reload_resumes w db rand now :
  reachable w →
  (let w' := init db rand now (page_load (localStorage w)) in
   (displayedBlessings w' = displayedBlessings w
    ∧ clickCount w' = clickCount w
    ∧ localStorage w' = localStorage w)
   ∨ (displayedBlessings w' = ∅ ∧ clickCount w' = 0 ∧ localStorage w' = None
      ∧ (localStorage w = None
         ∨ ∃ p t, localStorage w = Some (TextJson (JObject p))
             ∧ pTimestamp p = TsNumber t ∧ (7 * msPerDay < now - t)%Z)))
  ∧ (∀ draw t b,
       fst (getRandomUnDisplayedBlessing draw w) = Some b →
       complete b = true →
       let w1 := showBlessingIf false None draw t w in
       let w' := init db rand now (page_load (localStorage w1)) in
       KText (text b) ∈ displayedBlessings w1
       ∧ clickCount w1 = S (clickCount w)
       ∧ localStorage w1 = localStorage w
       ∧ (KText (text b) ∉ displayedBlessings w')
       ∧ clickCount w' < clickCount w1).
Proof.
  intros Hw%reachable_inSync.
  pose proof (reload_from_inSync w db rand now Hw) as Hreload.
  split; [done|].
  intros draw t b Hdraw Hc w1 w'.
  destruct (showBlessingIf_not_written draw t w b Hdraw Hc)
    as (Hd & Hclick & Hs).
  apply getRandomUnDisplayedBlessing_fresh in Hdraw as [Hfresh _].
  fold w1 in Hd, Hclick, Hs.
  split.
  { rewrite Hd. apply elem_of_union_l. by apply elem_of_singleton. }
  split; [done|]. split; [done|].
  unfold w'. rewrite Hs, Hclick.
  set (w2 := init db rand now (page_load (localStorage w))) in *.
  destruct Hreload as [(Hd' & Hc' & _)|(Hd' & Hc' & _)];
    rewrite Hd', Hc'; (split; [done|lia]).
Qed.

Lemma reachable_firstVisit : reachable firstVisit.
Proof. apply reach_act, reach_first. Qed.

(** The second visit, and the first visit followed by a click whose save
    throws. *)
Lemma reload_resumes_witness :
  ((displayedBlessings secondVisit = displayedBlessings firstVisit
    ∧ clickCount secondVisit = clickCount firstVisit
    ∧ localStorage secondVisit = localStorage firstVisit)
   ∨ (displayedBlessings secondVisit = ∅ ∧ clickCount secondVisit = 0
      ∧ localStorage secondVisit = None
      ∧ (localStorage firstVisit = None
         ∨ ∃ p t, localStorage firstVisit = Some (TextJson (JObject p))
             ∧ pTimestamp p = TsNumber t ∧ (7 * msPerDay < 3000 - t)%Z)))
  ∧ clickCount
      (init fallbackData keepOrder 3000
         (page_load
            (localStorage (showBlessingIf false None 0 2500 firstVisit))))
    < clickCount (showBlessingIf false None 0 2500 firstVisit).
Proof.
  split.
  - exact (proj1 (reload_resumes firstVisit fallbackData keepOrder 3000
                    reachable_firstVisit)).
  - refine (proj2 (proj2 (proj2 (proj2
              (proj2 (reload_resumes firstVisit fallbackData keepOrder 3000
                        reachable_firstVisit)
                 0 2500%Z (Blessing "f1" "festival") _ _))))).
    + vm_compute. reflexivity.
    + reflexivity.
Defined.

(** X11.  A reload that restores progress resumes the paging after the
    saved cursor: the saved cursor [c] is at least 1, the window of the new
    session is page [c] of the newly shuffled corpus alone, and the cursor
    is [c + 1].  The pages before [c], page 0 among them, are not in the
    window and are not the next to load. *)
Theorem reload_resumes_after_saved_cursor w db rand now p t :
  reachable w →
  localStorage w = Some (TextJson (JObject p)) →
  pTimestamp p = TsNumber t → (now - t ≤ 7 * msPerDay)%Z →
  let w' := init db rand now (page_load (localStorage w)) in
  ∃ c, pCurrentPage p = Some c ∧ 1 ≤ c
    ∧ currentPage w' = S c
    ∧ loadedBlessings w' = page w' c
    ∧ allBlessings w' = shuffleArray rand (flatten db).
Proof.
  intros Hw%reachable_inSync Hs Ht Hage w'.
  destruct (loadProgress_inSync db rand now w Hw)
    as [(_ & _ & _ & _ & [Hnone|(p' & t' & Hs' & Ht' & Hold)])
       |(p' & t' & c & Hs' & _ & _ & Hp & Hc1 & _ & _ & _ & Hcp)].
  - congruence.
  - rewrite Hs in Hs'. injection Hs' as <-. rewrite Ht in Ht'.
    injection Ht' as <-. lia.
  - rewrite Hs in Hs'. injection Hs' as <-.
    exists c. split; [done|]. split; [done|].
    unfold w', init. rewrite loadNextPage_loaded.
    set (w0 := loadProgress now _) in *.
    assert (Hl : loadedBlessings w0 = []).
    { unfold w0. rewrite (loadProgress_object now _ p) by by rewrite Hs.
      by destruct (expired now (pTimestamp p)). }
    assert (Ha : allBlessings w0 = shuffleArray rand (flatten db)).
    { unfold w0. rewrite (loadProgress_object now _ p) by by rewrite Hs.
      by destruct (expired now (pTimestamp p)). }
    rewrite Hl. simpl. rewrite Hcp. repeat split; try done.
Qed.

Lemma reload_resumes_after_saved_cursor_witness :
  ∃ c, pCurrentPage (progressOf 2000 firstVisit) = Some c ∧ 1 ≤ c
    ∧ currentPage secondVisit = S c
    ∧ loadedBlessings secondVisit = page secondVisit c
    ∧ allBlessings secondVisit = shuffleArray keepOrder (flatten fallbackData).
Proof.
  refine (reload_resumes_after_saved_cursor firstVisit fallbackData keepOrder
            3000 (progressOf 2000 firstVisit) 2000 reachable_firstVisit _ _ _).
  - vm_compute. reflexivity.
  - reflexivity.
  - vm_compute. discriminate.
Defined.

(** Nothing is drawn from a window within the corpus once every text of the
    corpus is displayed. *)
Lemma all_displayed_draws_null draw w :
  paged w →
  (∀ b, b ∈ allBlessings w → KText (text b) ∈ displayedBlessings w) →
  fst (getRandomUnDisplayedBlessing draw w) = None.
Proof.
  intros Hpaged Hall.
  destruct (fst (getRandomUnDisplayedBlessing draw w)) as [b|] eqn:Hdraw;
    [|done].
  apply getRandomUnDisplayedBlessing_fresh in Hdraw as [Hfresh Hin].
  destruct Hfresh. apply Hall.
  destruct Hpaged as (Hsub & Hps & _).
  rewrite getRandomUnDisplayedBlessing_two_way in Hin.
  destruct (bool_decide (length (unDisplayed w) < 10) && morePages w);
    simpl in Hin.
  - by apply (loadNextPage_within_corpus w).
  - by apply Hsub.
Qed.

(** X6.  On a first visit with an empty store, with distinct texts in the
    corpus, and as long as the user only clicks, the draw answers [null]
    exactly when every text of the corpus has been displayed. *)
Theorem clicks_only_null_exactly_when_all_displayed db rand now clicks draw :
  let w :=
    session (map (λ c, Click (fst c) (snd c)) clicks)
            (init db rand now (page_load None)) in
  NoDup (text <$> shuffleArray rand (flatten db)) →
  fst (getRandomUnDisplayedBlessing draw w) = None
  ↔ ∀ b, b ∈ allBlessings w → KText (text b) ∈ displayedBlessings w.
Proof.
  intros w Hnodup. split.
  - by apply clicks_only_null_means_all_displayed.
  - apply all_displayed_draws_null, paged_clicks, paged_init.
Qed.

Lemma clicks_only_null_exactly_when_all_displayed_witness :
  let w :=
    session
      (map (λ c, Click (fst c) (snd c))
           [(0, 1%Z); (0, 2%Z); (0, 3%Z); (0, 4%Z); (0, 5%Z)])
      (init fallbackData keepOrder 1000 (page_load None)) in
  fst (getRandomUnDisplayedBlessing 0 w) = None
  ↔ ∀ b, b ∈ allBlessings w → KText (text b) ∈ displayedBlessings w.
Proof.
  refine (clicks_only_null_exactly_when_all_displayed fallbackData keepOrder
            1000 [(0, 1%Z); (0, 2%Z); (0, 3%Z); (0, 4%Z); (0, 5%Z)] 0 _).
  apply (bool_decide_unpack _). vm_compute. exact I.
Defined.

(** ** Search *)

Section SearchFacts.

Variable toLowerCase : string → string.
Variable trim : string → string.
Variable jsLength : string → nat.

Local Abbreviation hit := (Search.hit toLowerCase).
Local Abbreviation searchFrom := (Search.searchFrom toLowerCase).
Local Abbreviation searchBlessings :=
  (Search.searchBlessings toLowerCase trim jsLength).

(** The result pushed for the blessing at [index]. *)
Local Abbreviation resultAt displayed index b :=
  (Search.Result (text b) (category b) index
     (bool_decide (KIndex index ∈ displayed))).

Lemma searchFrom_push term displayed index rest results :
  searchFrom term displayed index rest results
  = results ++ searchFrom term displayed index rest [].
Proof.
  revert index results.
  induction rest as [|b rest IH]; intros index results; simpl.
  - by rewrite app_nil_r.
  - rewrite IH, (IH _ (if hit term b then _ else _)).
    destruct (hit term b); [by rewrite app_assoc|done].
Qed.

Lemma searchFrom_cons term displayed index b rest :
  searchFrom term displayed index (b :: rest) []
  = (if hit term b then [resultAt displayed index b] else [])
    ++ searchFrom term displayed (S index) rest [].
Proof. simpl. rewrite searchFrom_push. by destruct (hit term b). Qed.

Lemma elem_of_searchFrom term displayed index rest r :
  r ∈ searchFrom term displayed index rest [] ↔
  ∃ k b, rest !! k = Some b ∧ hit term b = true
       ∧ r = resultAt displayed (index + k) b.
Proof.
  revert index. induction rest as [|b rest IH]; intros index.
  - simpl. split; [by intros ?%elem_of_nil|by intros (? & ? & ? & _)].
  - rewrite searchFrom_cons, elem_of_app, IH. split.
    + intros [Hr|(k & b' & Hk & Hhit & ->)].
      * destruct (hit term b) eqn:Hhit; [|by apply elem_of_nil in Hr].
        apply list_elem_of_singleton in Hr as ->.
        exists 0, b. by rewrite Nat.add_0_r.
      * exists (S k), b'. repeat split; [done..|].
        by replace (index + S k) with (S index + k) by lia.
    + intros ([|k] & b' & Hk & Hhit & ->); simpl in Hk.
      * injection Hk as ->. left. rewrite Hhit, Nat.add_0_r.
        by apply list_elem_of_singleton.
      * right. exists k, b'. repeat split; [done..|].
        by replace (index + S k) with (S index + k) by lia.
Qed.

Lemma searchFrom_indices term displayed index rest :
  Forall (λ r, index ≤ Search.rIndex r)
         (searchFrom term displayed index rest [])
  ∧ StronglySorted lt (Search.rIndex <$> searchFrom term displayed index rest []).
Proof.
  revert index. induction rest as [|b rest IH]; intros index.
  - simpl. split; constructor.
  - rewrite searchFrom_cons. destruct (IH (S index)) as [Hge Hsorted].
    assert (Hge' : Forall (λ r, index ≤ Search.rIndex r)
                     (searchFrom term displayed (S index) rest [])).
    { eapply Forall_impl; [exact Hge|]. simpl. lia. }
    destruct (hit term b); simpl; [|done].
    split; [by constructor|].
    constructor; [done|]. by apply Forall_fmap.
Qed.

(** The positions [showSpecificBlessing] is called with are those of search
    results: each holds a blessing of the corpus with a non-empty text and a
    non-empty category. *)
Lemma searchBlessings_positions_complete keyword w r :
  r ∈ searchBlessings keyword w →
  ∃ b, allBlessings w !! Search.rIndex r = Some b
     ∧ text b ≠ "" ∧ category b ≠ "".
Proof.
  unfold Search.searchBlessings.
  destruct (negb (truthy_string keyword) || String.eqb (trim keyword) "");
    [by intros ?%elem_of_nil|].
  destruct (100 <? jsLength keyword); [by intros ?%elem_of_nil|].
  intros (k & b & Hk & Hhit & ->)%elem_of_searchFrom.
  exists b. split; [done|]. apply complete_true.
  unfold Search.hit in Hhit. by apply andb_true_iff in Hhit as [? _].
Qed.

(** X12.  [searchBlessings] answers with no result for an empty keyword, a
    keyword that is blank after trimming, and a keyword longer than 100.
    For any other keyword the results are the corpus items with a non-empty
    text and category whose lowered text or lowered category contains the
    lowered and trimmed keyword: each such item once, with its corpus index
    and the membership of that index in the displayed set, in the order of
    the corpus. *)
Theorem searchBlessings_results keyword w :
  (keyword = "" ∨ trim keyword = "" ∨ 100 < jsLength keyword →
   searchBlessings keyword w = [])
  ∧ (keyword ≠ "" → trim keyword ≠ "" → jsLength keyword ≤ 100 →
     (∀ r, r ∈ searchBlessings keyword w ↔
        ∃ i b, allBlessings w !! i = Some b
          ∧ hit (trim (toLowerCase keyword)) b = true
          ∧ r = resultAt (displayedBlessings w) i b)
     ∧ StronglySorted lt (Search.rIndex <$> searchBlessings keyword w)).
Proof.
  unfold Search.searchBlessings, truthy_string. split.
  - intros [->|[Hblank|Hlong]]; [done| |].
    + rewrite Hblank. simpl. by rewrite orb_true_r.
    + apply Nat.ltb_lt in Hlong. rewrite Hlong. by destruct (_ || _).
  - intros Hkey%String.eqb_neq Hblank%String.eqb_neq Hshort.
    rewrite Hkey, Hblank. simpl.
    rewrite (proj2 (Nat.ltb_ge _ _)) by done.
    split; [|apply searchFrom_indices].
    intros r. apply elem_of_searchFrom.
Qed.

Lemma no_index_clicks db rand now clicks i :
  KIndex i
  ∉ displayedBlessings
      (session (map (λ c, Click (fst c) (snd c)) clicks)
               (init db rand now (page_load None))).
Proof.
  intros Hin.
  by destruct (first_visit_clicks_within_corpus db rand now clicks _ Hin)
    as (b & _ & ?).
Qed.

(** X13.  The [displayed] mark of a search result tells whether the result
    was chosen from a search before, not whether the blessing was shown: on
    a first visit with clicks only no result is marked, whatever was
    displayed; and once [showSpecificBlessing] has run for a corpus index,
    every result with that index is marked. *)
Theorem searchBlessings_marks_chosen_indices :
  (∀ db rand now clicks keyword r,
     r ∈ searchBlessings keyword
           (session (map (λ c, Click (fst c) (snd c)) clicks)
                    (init db rand now (page_load None))) →
     Search.rDisplayed r = false)
  ∧ (∀ w index now keyword r,
       is_Some (allBlessings w !! index) →
       r ∈ searchBlessings keyword (showSpecificBlessing index now w) →
       Search.rIndex r = index → Search.rDisplayed r = true).
Proof.
  assert (Hflag : ∀ keyword w r, r ∈ searchBlessings keyword w →
            Search.rDisplayed r
            = bool_decide (KIndex (Search.rIndex r) ∈ displayedBlessings w)).
  { intros keyword w r. unfold Search.searchBlessings.
    destruct (_ || _); [by intros ?%elem_of_nil|].
    destruct (_ <? _); [by intros ?%elem_of_nil|].
    by intros (i & b & _ & _ & ->)%elem_of_searchFrom. }
  split.
  - intros db rand now clicks keyword r Hr. rewrite (Hflag _ _ _ Hr).
    apply bool_decide_eq_false, no_index_clicks.
  - intros w index now keyword r [b Hb] Hr <-. rewrite (Hflag _ _ _ Hr).
    apply bool_decide_eq_true.
    unfold showSpecificBlessing. rewrite Hb. simpl. set_solver.
Qed.

End SearchFacts.

(** An instance with built-ins that do for lower-case ASCII without blanks. *)
Lemma searchBlessings_results_witness :
  Search.Result "g1" "technical" 2 false
  ∈ Search.searchBlessings (λ s, s) (λ s, s) String.length "tech"
      (init fallbackData keepOrder 1000 (page_load None)).
Proof.
  apply (proj2 (searchBlessings_results (λ s, s) (λ s, s) String.length
                  "tech" (init fallbackData keepOrder 1000 (page_load None)))
           ltac:(discriminate) ltac:(discriminate) ltac:(vm_compute; lia)).
  exists 2, (Blessing "g1" "technical"). by vm_compute.
Defined.

Lemma searchBlessings_marks_chosen_indices_witness :
  Search.rDisplayed (Search.Result "g1" "technical" 2 true) = true.
Proof.
  refine (proj2 (searchBlessings_marks_chosen_indices (λ s, s) (λ s, s)
                   String.length)
            (init fallbackData keepOrder 1000 (page_load None)) 2 2000%Z
            "tech" (Search.Result "g1" "technical" 2 true) _ _ eq_refl).
  - by eexists.
  - vm_compute. constructor.
Defined.

(** ** Start-up *)

Lemma startOperation_dataError g rand now w attempt e :
  dataError (value g) = Some e → startOperation g rand now w attempt = inl e.
Proof.
  unfold startOperation. destruct (value g) as [| |[|c db]]; simpl; congruence.
Qed.

(** The three attempts on a database that fails its checks. *)
Lemma retry_dataError g probe rand now w e :
  dataError (value g) = Some e →
  Retry.retryOperation (startOperation g rand now w) probe
    NetworkUnavailable 3 1000
  = if probe 1 then
      if probe 2 then Retry.Run (Retry.Threw e) 3 [1000; 2000]
      else Retry.Run (Retry.Threw NetworkUnavailable) 2 [1000]
    else Retry.Run (Retry.Threw NetworkUnavailable) 1 [].
Proof.
  intros He. unfold Retry.retryOperation.
  rewrite retryFrom_cases, (startOperation_dataError _ _ _ _ _ _ He). simpl.
  destruct (probe 1); [|done].
  rewrite retryFrom_cases, (startOperation_dataError _ _ _ _ _ _ He). simpl.
  destruct (probe 2); [|done].
  by rewrite retryFrom_cases, (startOperation_dataError _ _ _ _ _ _ He).
Qed.

Lemma loadProgress_allBlessings now w :
  allBlessings (loadProgress now w) = allBlessings w.
Proof.
  unfold loadProgress, loadProgress_try.
  destruct (localStorage w) as [saved|]; [|done].
  destruct (truthy_text saved); [|done].
  destruct (JSON_parse saved) as [v|]; [|done].
  destruct (negb (truthy v) || negb (typeof_object v)); [done|].
  by destruct (expired now (pTimestamp (members v))).
Qed.

Lemma init_allBlessings db rand now w :
  allBlessings (init db rand now w) = shuffleArray rand (flatten db).
Proof.
  unfold init.
  change (allBlessings (loadNextPage ?x)) with (allBlessings x).
  by rewrite loadProgress_allBlessings.
Qed.

Lemma loadProgress_loadedBlessings now w :
  loadedBlessings (loadProgress now w) = loadedBlessings w.
Proof.
  unfold loadProgress, loadProgress_try.
  destruct (localStorage w) as [saved|]; [|done].
  destruct (truthy_text saved); [|done].
  destruct (JSON_parse saved) as [v|]; [|done].
  destruct (negb (truthy v) || negb (typeof_object v)); [done|].
  by destruct (expired now (pTimestamp (members v))).
Qed.

(** X14.  With a database that has categories, start-up calls
    [BlessingManager.init] once, at the first attempt, without waiting and
    without probing the network, and shows no error panel. *)
Theorem startUp_with_database g probe online rand now w c db :
  value g = DbObject (c :: db) →
  startUp g probe online rand now w
  = Started (init (c :: db) rand now w) g None 1 [] NothingMore.
Proof.
  intros Hv. unfold startUp, Retry.retryOperation.
  rewrite retryFrom_cases. unfold startOperation. by rewrite Hv.
Qed.

Lemma startUp_with_database_witness :
  startUp (Binding true (DbObject fallbackData)) (λ _, false) false
    keepOrder 1000 (page_load None)
  = Started (init fallbackData keepOrder 1000 (page_load None))
      (Binding true (DbObject fallbackData)) None 1 [] NothingMore.
Proof.
  exact (startUp_with_database (Binding true (DbObject fallbackData))
           (λ _, false) false keepOrder 1000 (page_load None) _ _ eq_refl).
Defined.

(** X15.  When [BLESSING_DATABASE] is undefined, null or without categories
    and the network answers both probes, start-up makes three attempts with
    waits of 1000 and 2000 ms, shows the panel of the data error, and the
    recovery assigns the fallback database and initialises the manager from
    it: the corpus is then a rearrangement of its five blessings, provided
    the name is not bound by a [let] or [const]. *)
Theorem startUp_falls_back g probe online rand now w e :
  dataError (value g) = Some e → probe 1 = true → probe 2 = true →
  lexical g = false →
  startUp g probe online rand now w
  = Started (init fallbackDatabase rand now w)
      (Binding false (DbObject fallbackDatabase))
      (Some (codeOf e)) 3 [1000; 2000] NothingMore
  ∧ e ≠ NetworkUnavailable
  ∧ allBlessings (init fallbackDatabase rand now w) ≡ₚ flatten fallbackDatabase
  ∧ length (allBlessings (init fallbackDatabase rand now w)) = 5.
Proof.
  intros He Hp1 Hp2 Hlex.
  assert (Hne : e ≠ NetworkUnavailable).
  { destruct (value g) as [| |[|c db]]; simpl in He; congruence. }
  assert (Hperm : allBlessings (init fallbackDatabase rand now w)
                  ≡ₚ flatten fallbackDatabase).
  { rewrite init_allBlessings. apply shuffleFrom_Permutation. }
  split; [|split; [done|split; [done|]]].
  - unfold startUp. rewrite (retry_dataError _ _ _ _ _ _ He), Hp1, Hp2.
    simpl. destruct e; try done; simpl; unfold assignFallback;
      by rewrite Hlex.
  - by rewrite Hperm.
Qed.

Lemma startUp_falls_back_witness :
  startUp (Binding false DbUndefined) (λ _, true) true keepOrder 1000
    (page_load None)
  = Started (init fallbackDatabase keepOrder 1000 (page_load None))
      (Binding false (DbObject fallbackDatabase))
      (Some BLESSING_DATA_MISSING) 3 [1000; 2000] NothingMore.
Proof.
  exact (proj1 (startUp_falls_back (Binding false DbUndefined) (λ _, true)
                  true keepOrder 1000 (page_load None) NotLoaded
                  eq_refl eq_refl eq_refl eq_refl)).
Defined.

(** X16.  When the database fails its checks and one of the two probes
    finds the network unreachable, start-up stops before the third attempt
    and reports [NETWORK_ERROR] instead of the data error: the fallback
    database is not assigned, the manager is left as it was, and what is
    scheduled is a new [init] if the probe of the recovery answers, the
    reload dialogue if not. *)
Theorem startUp_offline_hides_data_error g probe online rand now w e :
  dataError (value g) = Some e → probe 1 = false ∨ probe 2 = false →
  startUp g probe online rand now w
  = Started w g (Some NETWORK_ERROR)
      (if probe 1 then 2 else 1) (if probe 1 then [1000] else [])
      (if online then InitAgain else ConfirmReload).
Proof.
  intros He Hoff. unfold startUp.
  rewrite (retry_dataError _ _ _ _ _ _ He).
  destruct (probe 1); [|done].
  destruct Hoff as [Hoff|Hoff]; [done|]. by rewrite Hoff.
Qed.

Lemma startUp_offline_hides_data_error_witness :
  startUp (Binding false DbNull) (λ k, bool_decide (k = 1)) false keepOrder
    1000 (page_load None)
  = Started (page_load None) (Binding false DbNull) (Some NETWORK_ERROR) 2
      [1000] ConfirmReload.
Proof.
  exact (startUp_offline_hides_data_error (Binding false DbNull)
           (λ k, bool_decide (k = 1)) false keepOrder 1000 (page_load None)
           InvalidData eq_refl (or_intror eq_refl)).
Defined.

(** X17.  When the name [BLESSING_DATABASE] is bound by a [let] or [const]
    and its value fails the checks, the recovery does not help: after the
    three attempts [loadFallbackData] assigns the property of [window],
    which the name does not read, and [BlessingManager.init] builds an empty
    corpus and adds nothing to the window. *)
Theorem startUp_fallback_shadowed g probe online rand now w e :
  dataError (value g) = Some e → probe 1 = true → probe 2 = true →
  lexical g = true →
  let s := startUp g probe online rand now w in
  global s = g ∧ panel s = Some (codeOf e) ∧ attempts s = 3 ∧
  pauses s = [1000; 2000] ∧
  allBlessings (manager s) = [] ∧
  loadedBlessings (manager s) = loadedBlessings w.
Proof.
  intros He Hp1 Hp2 Hlex s. subst s. unfold startUp.
  rewrite (retry_dataError _ _ _ _ _ _ He), Hp1, Hp2. simpl.
  assert (Hcat : categories (value g) = []).
  { by destruct (value g) as [| |[|c db]]. }
  assert (Hinit : allBlessings (init [] rand now w) = []
                  ∧ loadedBlessings (init [] rand now w) = loadedBlessings w).
  { split; [by rewrite init_allBlessings|].
    unfold init. rewrite loadNextPage_loaded. unfold page.
    rewrite loadProgress_allBlessings, loadProgress_loadedBlessings. simpl.
    change (shuffleArray rand (flatten [])) with (@nil blessing).
    by rewrite drop_nil, take_nil, app_nil_r. }
  assert (Hne : e ≠ NetworkUnavailable).
  { destruct (value g) as [| |[|c db]]; simpl in He; congruence. }
  destruct e; [| |done]; simpl; unfold assignFallback;
    rewrite Hlex, Hcat; by destruct Hinit.
Qed.

Lemma startUp_fallback_shadowed_witness :
  let s := startUp (Binding true (DbObject [])) (λ _, true) true keepOrder
             1000 (page_load None) in
  global s = Binding true (DbObject []) ∧
  panel s = Some BLESSING_DATA_INVALID ∧ attempts s = 3 ∧
  pauses s = [1000; 2000] ∧
  allBlessings (manager s) = [] ∧ loadedBlessings (manager s) = [].
Proof.
  exact (startUp_fallback_shadowed (Binding true (DbObject [])) (λ _, true)
           true keepOrder 1000 (page_load None) InvalidData
           eq_refl eq_refl eq_refl eq_refl).
Defined.

(** ** The test script *)

Lemma countPassed_from passed outcomes :
  let count :=
    foldl (λ passed o, if o is Some true then S passed else passed)
      passed outcomes in
  count ≤ passed + length outcomes
  ∧ (count = passed + length outcomes ↔ Forall (λ o, o = Some true) outcomes).
Proof.
  revert passed. induction outcomes as [|o os IH]; intros passed; simpl.
  - split; [lia|]. split; [constructor|lia].
  - destruct o as [[|]|].
    + destruct (IH (S passed)) as [Hle Hiff]. simpl in Hle, Hiff.
      split; [lia|]. split.
      * intros Heq. constructor; [done|]. apply Hiff. lia.
      * intros Hall. apply Forall_cons in Hall as [_ Hall].
        apply Hiff in Hall. lia.
    + destruct (IH passed) as [Hle Hiff]. simpl in Hle, Hiff.
      split; [lia|]. split; [lia|].
      intros Hall. by apply Forall_cons in Hall as [? _].
    + destruct (IH passed) as [Hle Hiff]. simpl in Hle, Hiff.
      split; [lia|]. split; [lia|].
      intros Hall. by apply Forall_cons in Hall as [? _].
Qed.

(** X18.  [runAllTests] returns [true] exactly when every test returned
    [true]: a test that returns [false] or throws is not counted, and a test
    that throws does not keep the later ones from running and being
    counted. *)
Theorem runAllTests_all_pass outcomes :
  (runAllTests outcomes = true ↔ Forall (λ o, o = Some true) outcomes)
  ∧ ∀ before after,
      countPassed (before ++ None :: after)
      = countPassed before + countPassed after.
Proof.
  split.
  - unfold runAllTests, countPassed. rewrite Nat.eqb_eq.
    destruct (countPassed_from 0 outcomes) as [_ Hiff]. apply Hiff.
  - intros before after. unfold countPassed. rewrite foldl_app. simpl.
    generalize (foldl (λ passed o, if o is Some true then S passed else passed)
                  0 before) as n.
    induction after as [|o os IH] using rev_ind; intros n; simpl; [lia|].
    rewrite !foldl_app. simpl. rewrite IH.
    destruct o as [[|]|]; lia.
Qed.
